(** * Simple-Telegram-Stock-Bot: symbol extraction, fuzzy search and routing

    A shallow embedding of [src/symbol_router.py] (class [Router], the
    [Stock] and [Coin] symbol classes) and of [src/functions.py]
    (class [Symbol]: [get_symbol_list], [search_symbols], [find_symbols]
    and the four replies), followed by the properties of the specification
    that concern them and by further properties of the code.

    Conventions.
    - Python [str] is [string]; scanning works on [list ascii].
    - [re.findall] is modelled by a small backtracking matcher over the
      regular-expression constructs the three patterns of the code use.
    - Iterating a Python [set] visits its elements in an order the language
      does not fix: it is a parameter, constrained to enumerate each element
      once.
    - The pandas [DataFrame] holding the reference list is a list of column
      names and a list of rows; [sort_values] (whose default algorithm is
      not stable) is a parameter constrained to return a descending
      rearrangement.
    - The scorers of the fuzzywuzzy library, the network fetch of the
      reference list and the backend clients are parameters. *)

From Stdlib Require Import ZArith Ascii String List Lia Permutation Sorted.
From Stdlib Require Import DecimalString.
From stdpp Require Import base tactics option list strings gmap sorting.


(** ** Characters and case mapping *)

Definition is_upper_letter (c : ascii) : bool :=
  (65 <=? nat_of_ascii c) && (nat_of_ascii c <=? 90).

Definition is_lower_letter (c : ascii) : bool :=
  (97 <=? nat_of_ascii c) && (nat_of_ascii c <=? 122).

(** The class [[a-zA-Z]]. *)
Definition is_letter (c : ascii) : bool :=
  is_lower_letter c || is_upper_letter c.

(** The class [[$]] (also written [\$]). *)
Definition is_dollar (c : ascii) : bool := Ascii.eqb c "$"%char.

(** The class [[^\$]]. *)
Definition not_dollar (c : ascii) : bool := negb (is_dollar c).

Definition upper_char (c : ascii) : ascii :=
  if is_lower_letter c then ascii_of_nat (nat_of_ascii c - 32) else c.

Definition lower_char (c : ascii) : ascii :=
  if is_upper_letter c then ascii_of_nat (nat_of_ascii c + 32) else c.

(** [str.upper] and [str.lower] on ASCII text. *)
Definition upper (s : string) : string :=
  string_of_list_ascii (map upper_char (list_ascii_of_string s)).

Definition lower (s : string) : string :=
  string_of_list_ascii (map lower_char (list_ascii_of_string s)).

(** ** Regular expressions ([re.findall]) *)

Module Regex.

(** The constructs used by [STOCK_REGEX], [CRYPTO_REGEX] and
    [SYMBOL_REGEX]: the anchor [^], a character class, concatenation,
    alternation [|], the greedy bounded repetition [cls{lo,hi}] of a
    class, and the capturing group [( )]. *)
Inductive regex : Type :=
| Bol : regex
| Cls : (ascii -> bool) -> regex
| Seq : regex -> regex -> regex
| Alt : regex -> regex -> regex
| Rep : (ascii -> bool) -> nat -> nat -> regex
| Grp : regex -> regex.

(** Matcher state: the absolute position, the text left to read and the
    capture of group 1 (its start and its text). *)
Record mstate : Type := MState {
  m_pos : nat;
  m_rest : list ascii;
  m_grp : option (nat * list ascii)
}.

(** Greedy repetition: take one more character of the class while allowed,
    and fall back to stopping here when the continuation fails. *)
Fixpoint rep (p : ascii -> bool) (lo hi : nat) (st : mstate)
         (k : mstate -> option mstate) : option mstate :=
  let stop := if (lo =? 0) then k st else None in
  match hi with
  | O => stop
  | S hi' =>
      match m_rest st with
      | c :: s =>
          if p c then
            match rep p (pred lo) hi' (MState (S (m_pos st)) s (m_grp st)) k with
            | Some r => Some r
            | None => stop
            end
          else stop
      | [] => stop
      end
  end.

(** Backtracking matcher in continuation-passing style. *)
Fixpoint mre (r : regex) (st : mstate) (k : mstate -> option mstate)
  : option mstate :=
  match r with
  | Bol => if (m_pos st =? 0) then k st else None
  | Cls p =>
      match m_rest st with
      | c :: s => if p c then k (MState (S (m_pos st)) s (m_grp st)) else None
      | [] => None
      end
  | Seq a b => mre a st (fun st' => mre b st' k)
  | Alt a b =>
      match mre a st k with
      | Some r => Some r
      | None => mre b st k
      end
  | Rep p lo hi => rep p lo hi st k
  | Grp a =>
      mre a st (fun st' =>
        k (MState (m_pos st') (m_rest st')
             (Some (m_pos st, take (m_pos st' - m_pos st) (m_rest st)))))
  end.

(** A match attempt at position [pos], the text from there being [s]:
    the length of the match, and the start and text of group 1. *)
Definition match_at (r : regex) (pos : nat) (s : list ascii)
  : option (nat * (nat * list ascii)) :=
  match mre r (MState pos s None) Some with
  | Some st =>
      Some (m_pos st - pos,
            match m_grp st with Some g => g | None => (pos, []) end)
  | None => None
  end.

(** Left-to-right scan for non-overlapping matches. [skip] counts the
    characters still covered by the previous match. *)
Fixpoint finditer (r : regex) (pos skip : nat) (s : list ascii)
  : list (nat * list ascii) :=
  match skip with
  | S n =>
      match s with
      | [] => []
      | _ :: s' => finditer r (S pos) n s'
      end
  | O =>
      match match_at r pos s with
      | Some (len, g) =>
          g :: match s with
               | [] => []
               | _ :: s' => finditer r (S pos) (pred len) s'
               end
      | None =>
          match s with
          | [] => []
          | _ :: s' => finditer r (S pos) 0 s'
          end
      end
  end.

(** [re.findall(r, text)] for a pattern with one group: the texts of the
    group, in the order of the matches. *)
Definition findall (r : regex) (text : string) : list string :=
  map (fun g => string_of_list_ascii (snd g))
      (finditer r 0 0 (list_ascii_of_string text)).

End Regex.

Import Regex.

(** [Router.STOCK_REGEX = "(?:^|[^\\$])\\$([a-zA-Z]{1,4})"] *)
Definition STOCK_REGEX : regex :=
  Seq (Alt Bol (Cls not_dollar))
      (Seq (Cls is_dollar) (Grp (Rep is_letter 1 4))).

(** [Router.CRYPTO_REGEX = "[$]{2}([a-zA-Z]{1,9})"] *)
Definition CRYPTO_REGEX : regex :=
  Seq (Rep is_dollar 2 2) (Grp (Rep is_letter 1 9)).

(** [Symbol.SYMBOL_REGEX = "[$]([a-zA-Z]{1,4})"] of [functions.py]. *)
Definition SYMBOL_REGEX : regex :=
  Seq (Cls is_dollar) (Grp (Rep is_letter 1 4)).

(** ** Symbol objects ([symbol_router.py], classes [Stock] and [Coin])

    The objects a symbol list can hold: a [Stock], a [Coin], or any other
    Python object (for which both [isinstance] tests fail). [symbol] is the
    attribute set by the constructors. The constructor of [Coin] also asks
    the provider for the coin's [id] and data; these network calls are not
    modelled. *)
Inductive PyObj : Type :=
| Stock (symbol : string)
| Coin (symbol : string)
| Other (repr : string).

Global Instance PyObj_eq_dec : EqDecision PyObj.
Proof. solve_decision. Defined.

Global Instance Stock_inj : Inj eq eq Stock.
Proof. intros x y H. now injection H. Qed.

Definition is_Stock (o : PyObj) : bool :=
  match o with Stock _ => true | _ => false end.

Definition is_Coin (o : PyObj) : bool :=
  match o with Coin _ => true | _ => false end.

(** ** The router ([symbol_router.py], class [Router]) *)

Module Router.
Section Router.

(** Order in which a [set] built from a list is iterated. *)
Variable set_iter : list string -> list string.

(** [self.stock.symbol_list["symbol"].values] and
    [self.crypto.symbol_list["symbol"].values]. *)
Variable stock_symbol_list crypto_symbol_list : list string.

(** [Router.find_symbols]. The two [print] calls are not modelled. *)
Definition find_symbols (text : string) : list PyObj :=
  let symbols := [] in
  let stocks := set_iter (findall STOCK_REGEX text) in
  let symbols :=
    foldl (fun symbols stock =>
             if bool_decide (upper stock ∈ stock_symbol_list)
             then symbols ++ [Stock stock]
             else symbols) symbols stocks in
  let coins := set_iter (findall CRYPTO_REGEX text) in
  let symbols :=
    foldl (fun symbols coin =>
             if bool_decide (lower coin ∈ crypto_symbol_list)
             then symbols ++ [Coin (lower coin)]
             else symbols) symbols coins in
  symbols.

(** The backend clients [IEX_Symbol] and [cg_Crypto] perform network
    calls: each method maps the symbol and the state of the outside world
    to a reply and a new state of the world. *)
Variable World : Type.
Definition backend : Type := string -> World -> string * World.

Variables stock_price_reply stock_dividend_reply stock_news_reply
          stock_info_reply stock_stat_reply : backend.
Variables crypto_price_reply crypto_info_reply crypto_stat_reply : backend.

(** A fixed reply, no backend call. *)
Definition fixed_reply (msg : string) : backend := fun _ w => (msg, w).

(** The loop shared by the five batch operations:
    [for symbol in symbols: if isinstance(symbol, Stock): replies.append(..)
     elif isinstance(symbol, Coin): replies.append(..) else: print(..)]. *)
Definition reply_step (on_stock on_coin : backend)
           (acc : list string * World) (symbol : PyObj) : list string * World :=
  let '(replies, w) := acc in
  match symbol with
  | Stock s => let '(r, w') := on_stock s w in (replies ++ [r], w')
  | Coin s => let '(r, w') := on_coin s w in (replies ++ [r], w')
  | Other _ => (replies, w)
  end.

Definition reply_loop (on_stock on_coin : backend)
           (symbols : list PyObj) (w : World) : list string * World :=
  foldl (reply_step on_stock on_coin) ([], w) symbols.

Definition price_reply : list PyObj -> World -> list string * World :=
  reply_loop stock_price_reply crypto_price_reply.

Definition dividend_reply : list PyObj -> World -> list string * World :=
  reply_loop stock_dividend_reply
             (fixed_reply "Cryptocurrencies do no have Dividends.").

Definition news_reply : list PyObj -> World -> list string * World :=
  reply_loop stock_news_reply
             (fixed_reply "News is not yet supported for cryptocurrencies.").

Definition info_reply : list PyObj -> World -> list string * World :=
  reply_loop stock_info_reply crypto_info_reply.

Definition stat_reply : list PyObj -> World -> list string * World :=
  reply_loop stock_stat_reply crypto_stat_reply.

(** The time series ([pd.DataFrame]) returned by the two chart operations;
    [empty_frame] is [pd.DataFrame()]. *)
Variable Frame : Type.
Variable empty_frame : Frame.
Definition frame_backend : Type := string -> World -> Frame * World.

Variables stock_intra_reply stock_chart_reply : frame_backend.
Variables crypto_intra_reply crypto_chart_reply : frame_backend.

(** The dispatch shared by [intra_reply] and [chart_reply]:
    [if isinstance(symbol, Stock): return self.stock.f(symbol)
     elif isinstance(symbol, Coin): return self.crypto.f(symbol)
     else: print(..); return pd.DataFrame()]. *)
Definition single_reply (on_stock on_coin : frame_backend)
           (symbol : PyObj) (w : World) : Frame * World :=
  match symbol with
  | Stock s => on_stock s w
  | Coin s => on_coin s w
  | Other _ => (empty_frame, w)
  end.

Definition intra_reply : PyObj -> World -> Frame * World :=
  single_reply stock_intra_reply crypto_intra_reply.

Definition chart_reply : PyObj -> World -> Frame * World :=
  single_reply stock_chart_reply crypto_chart_reply.

End Router.
End Router.

(** ** The reference table (a pandas [DataFrame]) *)

Record Row : Type := mkRow {
  Symbol : string;
  Issue_Name : string;
  Primary_Listing_Mkt : string;
  Description : string;
  Match : Z
}.

(** [columns] lists the column names; the field [Match] of a row is
    meaningful only once the column "Match" exists. *)
Record DataFrame : Type := mkDF {
  columns : list string;
  rows : list Row
}.

Definition set_Match (v : Z) (x : Row) : Row :=
  mkRow (Symbol x) (Issue_Name x) (Primary_Listing_Mkt x) (Description x) v.

(** [df["Match"] = df.apply(f, axis=1)] on a table with rows: the column is
    created when absent and overwritten otherwise. On a table without rows
    [apply] gives back a table, not a column, and the assignment raises
    [ValueError] before anything is changed: that case is outside the model,
    which describes the calls that return. *)
Definition assign_Match (f : Row -> Z) (df : DataFrame) : DataFrame :=
  mkDF (if bool_decide ("Match"%string ∈ columns df) then columns df
        else columns df ++ ["Match"%string])
       (map (fun x => set_Match (f x) x) (rows df)).

(** [df["Match"].head().sum()] *)
Definition head_sum (df : DataFrame) : Z :=
  foldr Z.add 0%Z (map Match (take 5 (rows df))).

(** [df.head(10)] *)
Definition head10 (df : DataFrame) : DataFrame :=
  mkDF (columns df) (take 10 (rows df)).

(** ** Fuzzy search and extraction ([functions.py], class [Symbol]) *)

Module Functions.

(** The instance attributes [symbol_list] and [symbol_ts], and the class
    attribute [searched_symbols]. Times are in microseconds. *)
Record State : Type := mkState {
  symbol_list : DataFrame;
  symbol_ts : Z;
  searched_symbols : gmap string (list (string * string))
}.

(** [timedelta(hours=3)] *)
Definition TTL : Z := (3 * 3600 * 1000000)%Z.

(** The staleness test of [search_symbols], as written:
    [self.symbol_ts - datetime.now() > timedelta(hours=3)]. *)
Definition stale (ts now : Z) : bool := (ts - now >? TTL)%Z.

(** [if <stale>: self.symbol_list, self.symbol_ts = self.get_symbol_list()]:
    the table and the time stamp held after the test. [fetched] is what
    [get_symbol_list] returns if it is called: the table downloaded and
    the time of the download. *)
Definition refresh_if_stale (fetched : DataFrame * Z) (now : Z) (self : State)
  : DataFrame * Z :=
  if stale (symbol_ts self) now then fetched
  else (symbol_list self, symbol_ts self).

Section Functions.

(** [fuzz.ratio] and [fuzz.partial_ratio]. *)
Variables ratio partial_ratio : string -> string -> Z.

(** [sort_values(by="Match", ascending=False, inplace=True)] on the rows. *)
Variable sort_values : list Row -> list Row.

Definition sort_df (df : DataFrame) : DataFrame :=
  mkDF (columns df) (sort_values (rows df)).

(** [lambda x: fuzz.ratio(search.lower(), f"{x['Symbol']}".lower())] *)
Definition ticker_score (search : string) (x : Row) : Z :=
  ratio (lower search) (lower (Symbol x)).

(** [lambda x: fuzz.partial_ratio(search.lower(), x["Issue_Name"].lower())] *)
Definition name_score (search : string) (x : Row) : Z :=
  partial_ratio (lower search) (lower (Issue_Name x)).

(** The scoring, sorting and fallback of [search_symbols] on the table:
    the table as it is left, in place, when the function returns. *)
Definition rank (search : string) (symbols : DataFrame) : DataFrame :=
  let symbols := assign_Match (ticker_score search) symbols in
  let symbols := sort_df symbols in
  if (head_sum symbols <? 300)%Z then
    let symbols := assign_Match (name_score search) symbols in
    sort_df symbols
  else symbols.

(** [list(zip(list(symbols["Symbol"]), list(symbols["Description"])))] *)
Definition project (df : DataFrame) : list (string * string) :=
  map (fun x => (Symbol x, Description x)) (rows df).

(** [Symbol.search_symbols]. [now] is the value of [datetime.now()] in the
    staleness test. The local name [symbols] and [self.symbol_list] denote
    one object, mutated in place until [symbols] is rebound to
    [symbols.head(10)]. *)
Definition search_symbols (fetched : DataFrame * Z) (now : Z)
           (search : string) (self : State)
  : list (string * string) * State :=
  match searched_symbols self !! search with
  | Some hit => (hit, self)
  | None =>
      let '(table, ts) := refresh_if_stale fetched now self in
      let symbols := rank search table in
      let symbol_list := project (head10 symbols) in
      (symbol_list,
       mkState symbols ts (<[search := symbol_list]> (searched_symbols self)))
  end.

(** Order in which a [set] built from a list is iterated. *)
Variable set_iter : list string -> list string.

(** [Symbol.find_symbols]. *)
Definition find_symbols (text : string) : list string :=
  set_iter (findall SYMBOL_REGEX text).

End Functions.

(** *** [Symbol.get_symbol_list] *)

(** [s.split(sep)] for a separator of one character. *)
Fixpoint str_split (sep : ascii) (s : string) : list string :=
  match s with
  | EmptyString => [EmptyString]
  | String c s' =>
      if Ascii.eqb c sep then EmptyString :: str_split sep s'
      else match str_split sep s' with
           | h :: t => String c h :: t
           | [] => [String c EmptyString]
           end
  end.

(** [[line.split("|") for line in raw_symbols.split("\n")][:-1]] *)
Definition records (raw_symbols : string) : list (list string) :=
  removelast (map (str_split "|") (str_split "010" raw_symbols)).

(** A table of text cells under column labels. *)
Record Table : Type := mkTable {
  labels : list string;
  body : list (list string)
}.

(** What a call does: it returns, or raises the named exception.
    [Unmodelled] marks the inputs on which the behaviour of pandas is left
    out of the model (see [get_symbol_list]). *)
Inductive outcome (A : Type) : Type :=
| Returns (a : A)
| Raises (exn : string)
| Unmodelled.
Arguments Returns {A} a.
Arguments Raises {A} exn.
Arguments Unmodelled {A}.

(** [pd.DataFrame] fills the rows that are shorter than the longest one with
    missing values. Nothing of this shows in what [get_symbol_list] returns
    when every row but the last has as many cells as the first and the last
    row, which is dropped, has no more: the tables the model covers. *)
Definition short_last_only (table : list (list string)) : bool :=
  match table with
  | [] => true
  | r :: t =>
      forallb (fun r' => length r' =? length r) (removelast t) &&
      (length (List.last t r) <=? length r)
  end.

(** Positions of a label among the column labels. *)
Fixpoint positions (l : string) (ls : list string) (i : nat) : list nat :=
  match ls with
  | [] => []
  | x :: ls' =>
      if String.eqb x l then i :: positions l ls' (S i)
      else positions l ls' (S i)
  end.

Definition cell (row : list string) (i : nat) : string := nth i row EmptyString.

(** [symbols[label] = column]: the column is overwritten where it is, or
    added at the end. *)
Definition assign_column (label : string) (f : list string -> string)
           (t : Table) : outcome Table :=
  match positions label (labels t) 0 with
  | [] => Returns (mkTable (labels t ++ [label])
                           (map (fun r => r ++ [f r]) (body t)))
  | [k] => Returns (mkTable (labels t)
                            (map (fun r => <[k := f r]> r) (body t)))
  | _ => Unmodelled
  end.

(** [Symbol.get_symbol_list], from the text of the response. [now] is the
    value of [datetime.now()] when the function returns.

    [pd.DataFrame] is given the rows of [records]; the first row becomes the
    column labels and is dropped, then the last row is dropped
    ([symbols.iloc[0]] and [symbols.index[-1]] raise [IndexError] when there
    is no such row); ["Description"] is the column ["Symbol"], then [": "],
    then the column ["Issue_Name"] (a label that is absent raises
    [KeyError]). Left out of the model: a row that makes the table hold
    missing values after the last row is dropped (see [short_last_only]),
    and a label ["Symbol"], ["Issue_Name"] or ["Description"] that occurs
    more than once, for which the selection is a table rather than a
    column. *)
Definition get_symbol_list (raw_symbols : string) (now : Z)
  : outcome (Table * Z) :=
  let table := records raw_symbols in
  if negb (short_last_only table) then Unmodelled else
  match table with
  | [] => Raises "IndexError"
  | header :: rest =>
      match rest with
      | [] => Raises "IndexError"
      | _ :: _ =>
          let symbols := mkTable header (removelast rest) in
          match positions "Symbol" header 0 with
          | [] => Raises "KeyError"
          | [i] =>
              match positions "Issue_Name" header 0 with
              | [] => Raises "KeyError"
              | [j] =>
                  match assign_column "Description"
                          (fun r => cell r i +:+ ": " +:+ cell r j) symbols with
                  | Returns symbols => Returns (symbols, now)
                  | Raises e => Raises e
                  | Unmodelled => Unmodelled
                  end
              | _ => Unmodelled
              end
          | _ => Unmodelled
          end
      end
  end.

(** The table as the search reads it, when the labels are those of the
    reference list: ["Symbol"], ["Issue_Name"], ["Primary_Listing_Mkt"] and
    ["Description"]. *)
Definition row_of_cells (r : list string) : Row :=
  mkRow (cell r 0) (cell r 1) (cell r 2) (cell r 3) 0.

Definition frame_of_table (t : Table) : option DataFrame :=
  if bool_decide (labels t =
       ["Symbol"; "Issue_Name"; "Primary_Listing_Mkt"; "Description"]%string)
  then Some (mkDF (labels t) (map row_of_cells (body t)))
  else None.

(** *** The replies of [functions.py] *)

(** A Python [dict] with string keys: the items in order of insertion;
    assigning to a key that is present keeps its place. *)
Fixpoint dict_set {V : Type} (k : string) (v : V) (d : list (string * V))
  : list (string * V) :=
  match d with
  | [] => [(k, v)]
  | (k', v') :: d' =>
      if String.eqb k' k then (k, v) :: d' else (k', v') :: dict_set k v d'
  end.


(** [timedelta(days=1)], in microseconds. *)
Definition DAY : Z := (24 * 3600 * 1000000)%Z.

(** [str(n)] for an integer. *)
Definition str_of_int (n : Z) : string :=
  DecimalString.NilZero.string_of_int (Z.to_int n).

(** The characters ["\t"] and ["\n"], as one-character strings. *)
Definition TAB : string := String "009" EmptyString.
Definition NL : string := String "010" EmptyString.

Section Replies.

(** The outside world, the body of a response once parsed
    ([response.json()]) and the response of [requests.get]. *)
Variable World : Type.
Variable Json : Type.

Record Response : Type := mkResponse {
  status_code : Z;
  json : Json
}.

(** [requests.get(url)] *)
Variable get : string -> World -> Response * World.

(** [datetime.now()] *)
Variable clock : World -> Z.

Variable IEX_TOKEN : string.

(** The fields read from a quote and from a company record, as the
    f-strings render them; [change] stands for
    [round(IEXData["changePercent"] * 100, 2)], a float, of which the code
    uses the two comparisons with 0 and the rendering. *)
Variables companyName latestPrice : Json -> string.
Variables change_gt_0 change_lt_0 : Json -> bool.
Variable change : Json -> string.
Variables website industry sector CEO description : Json -> string.

(** The news items of a response: headline and url of each. *)
Variable news_items : Json -> list (string * string).

(** [datetime.strptime(date, "%Y-%m-%d")], which raises [ValueError] on a
    text that is not a date, and [divDate.strftime("%A, %B %w")]. *)
Variable strptime : Json -> option Z.
Variable strftime : Z -> string.

(** The loop shared by the four replies:
    [for symbol in symbols: <request, message>; messages[symbol] = message].
    A message that raises ends the call. *)
Definition reply_dict_step
           (message_for : string -> World -> option string * World)
           (acc : option (list (string * string)) * World) (symbol : string)
  : option (list (string * string)) * World :=
  match acc with
  | (Some d, w) =>
      match message_for symbol w with
      | (Some m, w') => (Some (dict_set symbol m d), w')
      | (None, w') => (None, w')
      end
  | (None, w) => (None, w)
  end.

Definition reply_dict (message_for : string -> World -> option string * World)
           (symbols : list string) (w : World)
  : option (list (string * string)) * World :=
  foldl (reply_dict_step message_for) (Some [], w) symbols.

Definition price_message (symbol : string) (w : World) : option string * World :=
  let IEXurl := "https://cloud.iexapis.com/stable/stock/" +:+ symbol
                +:+ "/quote?token=" +:+ IEX_TOKEN in
  let '(response, w) := get IEXurl w in
  if (status_code response =? 200)%Z then
    let IEXData := json response in
    let message := "The current stock price of " +:+ companyName IEXData
                   +:+ " is $**" +:+ latestPrice IEXData +:+ "**" in
    if change_gt_0 IEXData then
      (Some (message +:+ ", the stock is currently **up "
               +:+ change IEXData +:+ "%**"), w)
    else if change_lt_0 IEXData then
      (Some (message +:+ ", the stock is currently **down "
               +:+ change IEXData +:+ "%**"), w)
    else
      (Some (message +:+ ", the stock hasn't shown any movement today."), w)
  else (Some ("The symbol: " +:+ symbol +:+ " was not found."), w).

Definition price_reply := reply_dict price_message.

Definition dividend_message (symbol : string) (w : World)
  : option string * World :=
  let IEXurl := "https://cloud.iexapis.com/stable/data-points/" +:+ symbol
                +:+ "/NEXTDIVIDENDDATE?token=" +:+ IEX_TOKEN in
  let '(response, w) := get IEXurl w in
  if (status_code response =? 200)%Z then
    let date := json response in
    match strptime date with
    | None => (None, w)
    | Some divDate =>
        let daysDelta := ((divDate - clock w) / DAY)%Z in
        let datePretty := strftime divDate in
        if (daysDelta <? 0)%Z then
          (Some (upper symbol +:+ " dividend was on " +:+ datePretty
                   +:+ " and a new date hasn't been announced yet."), w)
        else if (daysDelta >? 0)%Z then
          (Some (upper symbol +:+ " dividend is on " +:+ datePretty
                   +:+ " which is in " +:+ str_of_int daysDelta +:+ " Days."), w)
        else (Some (upper symbol +:+ " is today."), w)
    end
  else (Some (symbol +:+ " either doesn't exist or pays no dividend."), w).

Definition dividend_reply := reply_dict dividend_message.

Definition news_message (symbol : string) (w : World) : option string * World :=
  let IEXurl := "https://cloud.iexapis.com/stable/stock/" +:+ symbol
                +:+ "/news/last/3?token=" +:+ IEX_TOKEN in
  let '(response, w) := get IEXurl w in
  if (status_code response =? 200)%Z then
    let data := json response in
    (Some (foldl (fun message news =>
                    message +:+ TAB +:+ "[" +:+ fst news +:+ "](" +:+ snd news
                    +:+ ")" +:+ NL +:+ NL)
                 ("News for **" +:+ upper symbol +:+ "**:" +:+ NL)
                 (news_items data)), w)
  else (Some ("No news found for: " +:+ symbol +:+ NL
                +:+ "Either today is boring or the symbol does not exist."), w).

Definition news_reply := reply_dict news_message.

Definition info_message (symbol : string) (w : World) : option string * World :=
  let IEXurl := "https://cloud.iexapis.com/stable/stock/" +:+ symbol
                +:+ "/company?token=" +:+ IEX_TOKEN in
  let '(response, w) := get IEXurl w in
  if (status_code response =? 200)%Z then
    let data := json response in
    (Some ("Company Name: [" +:+ companyName data +:+ "](" +:+ website data
             +:+ ")" +:+ NL
             +:+ "Industry: " +:+ industry data +:+ NL
             +:+ "Sector: " +:+ sector data +:+ NL
             +:+ "CEO: " +:+ CEO data +:+ NL
             +:+ "Description: " +:+ description data
             +:+ NL), w)
  else (Some ("No information found for: " +:+ symbol
                +:+ NL
                +:+ "Either today is boring or the symbol does not exist."), w).

Definition info_reply := reply_dict info_message.

End Replies.
End Functions.

(** ** Reference instances of the parameters

    Used to run the definitions on concrete inputs. *)

(** A set iterated in the order in which its elements last occur in the
    list it was built from. *)
Definition set_iter_ref : list string -> list string := remove_dups.

Definition Match_ge (x y : Row) : Prop := (Match y <= Match x)%Z.

Global Instance Match_ge_dec x y : Decision (Match_ge x y).
Proof. unfold Match_ge. apply _. Defined.

(** A stable descending sort. *)
Definition sort_values_stable : list Row -> list Row := merge_sort Match_ge.

(** Stand-ins for the scorers. They agree with the library on the two cases
    that do not depend on its matching algorithm: equal strings score 100
    and strings with no character in common score 0. Elsewhere they return
    50, a placeholder. *)
Definition share_char (a b : string) : bool :=
  existsb (fun c => existsb (Ascii.eqb c) (list_ascii_of_string b))
          (list_ascii_of_string a).

Definition ratio_ref (a b : string) : Z :=
  if String.eqb a b then 100%Z else if share_char a b then 50%Z else 0%Z.

Definition partial_ratio_ref (a b : string) : Z :=
  if String.eqb a b then 100%Z else if share_char a b then 50%Z else 0%Z.

(** * Properties *)

(** ** The patterns on sample texts *)

Example findall_STOCK_message :
  findall STOCK_REGEX "what about $tsla and $$btc today" = ["tsla"%string].
Proof. reflexivity. Qed.

Example findall_CRYPTO_message :
  findall CRYPTO_REGEX "what about $tsla and $$btc today" = ["btc"%string].
Proof. reflexivity. Qed.

Example findall_STOCK_long_token :
  findall STOCK_REGEX "$abcdef $$abc$x $ $1 x$Q" =
  ["abcd"%string; "x"%string; "Q"%string].
Proof. reflexivity. Qed.

Example findall_CRYPTO_three_dollars :
  findall CRYPTO_REGEX "$$$eth" = ["eth"%string].
Proof. reflexivity. Qed.

Example upper_lower_token : upper "tsLa" = "TSLA"%string /\ lower "BtC" = "btc"%string.
Proof. split; reflexivity. Qed.

(** ** The matcher on the three patterns *)

(** Number of leading characters of [s] in the class [p], at most [hi]. *)
Fixpoint run (p : ascii -> bool) (hi : nat) (s : list ascii) : nat :=
  match hi, s with
  | S hi', c :: s' => if p c then S (run p hi' s') else 0
  | _, _ => 0
  end.

Lemma run_le_length p hi s : run p hi s <= length s.
Proof.
  revert s; induction hi as [|hi IH]; intros [|c s]; simpl; try lia.
  destruct (p c); [specialize (IH s)|]; lia.
Qed.

Lemma run_Forall p hi s : Forall (fun c => p c = true) (take (run p hi s) s).
Proof.
  revert s; induction hi as [|hi IH]; intros [|c s]; simpl; try constructor.
  destruct (p c) eqn:E; simpl; constructor; auto.
Qed.

(** After a repetition whose continuation cannot fail, the matcher has read
    the longest run allowed. *)
Lemma rep_total p k :
  (forall st, is_Some (k st)) ->
  forall hi lo st,
    rep p lo hi st k =
    if lo <=? run p hi (m_rest st)
    then k (MState (m_pos st + run p hi (m_rest st))
                   (drop (run p hi (m_rest st)) (m_rest st)) (m_grp st))
    else None.
Proof.
  intros Hk. induction hi as [|hi IH]; intros lo [pos s g]; simpl.
  - rewrite Nat.add_0_r. destruct s; destruct lo; reflexivity.
  - destruct s as [|c s]; simpl.
    + rewrite Nat.add_0_r. destruct lo; reflexivity.
    + destruct (p c) eqn:E; simpl.
      * rewrite IH; simpl.
        replace (pos + S (run p hi s)) with (S (pos + run p hi s)) by lia.
        replace (S pos + run p hi s) with (S (pos + run p hi s)) by lia.
        destruct lo as [|lo]; simpl.
        -- destruct (Hk (MState (S (pos + run p hi s)) (drop (run p hi s) s) g))
             as [r ->]; reflexivity.
        -- destruct (Nat.leb_spec lo (run p hi s)).
           ++ destruct (Hk (MState (S (pos + run p hi s)) (drop (run p hi s) s) g))
                as [r ->]; reflexivity.
           ++ reflexivity.
      * rewrite Nat.add_0_r. destruct lo; reflexivity.
Qed.

(** What a match attempt of each pattern returns, in closed form. *)
Definition stock_match (pos : nat) (s : list ascii)
  : option (nat * (nat * list ascii)) :=
  match s with
  | c :: s1 =>
      if (pos =? 0) && is_dollar c && (1 <=? run is_letter 4 s1)
      then Some (1 + run is_letter 4 s1, (pos + 1, take (run is_letter 4 s1) s1))
      else
        match s1 with
        | d :: s2 =>
            if not_dollar c && is_dollar d && (1 <=? run is_letter 4 s2)
            then Some (2 + run is_letter 4 s2,
                       (pos + 2, take (run is_letter 4 s2) s2))
            else None
        | [] => None
        end
  | [] => None
  end.

Definition crypto_match (pos : nat) (s : list ascii)
  : option (nat * (nat * list ascii)) :=
  match s with
  | c :: d :: s2 =>
      if is_dollar c && is_dollar d && (1 <=? run is_letter 9 s2)
      then Some (2 + run is_letter 9 s2, (pos + 2, take (run is_letter 9 s2) s2))
      else None
  | _ => None
  end.

Definition symbol_match (pos : nat) (s : list ascii)
  : option (nat * (nat * list ascii)) :=
  match s with
  | c :: s1 =>
      if is_dollar c && (1 <=? run is_letter 4 s1)
      then Some (1 + run is_letter 4 s1, (pos + 1, take (run is_letter 4 s1) s1))
      else None
  | [] => None
  end.

Ltac match_arith :=
  cbn [m_pos m_rest m_grp];
  f_equal; f_equal; [lia | f_equal; [lia | f_equal; lia]].

Lemma match_at_SYMBOL pos s : match_at SYMBOL_REGEX pos s = symbol_match pos s.
Proof.
  unfold match_at, SYMBOL_REGEX, symbol_match; cbn [mre m_pos m_rest m_grp].
  destruct s as [|c s1]; [reflexivity|].
  destruct (is_dollar c); [|reflexivity]; cbn [andb].
  rewrite rep_total by (intro; eexists; reflexivity); cbn [m_pos m_rest m_grp].
  destruct (1 <=? run is_letter 4 s1); [|reflexivity].
  match_arith.
Qed.

Lemma rep_exactly_2 p st k :
  rep p 2 2 st k =
  match m_rest st with
  | c :: d :: s2 =>
      if p c && p d then k (MState (S (S (m_pos st))) s2 (m_grp st)) else None
  | _ => None
  end.
Proof.
  destruct st as [pos [|c [|d s2]] g]; simpl; try reflexivity.
  - destruct (p c); reflexivity.
  - destruct (p c), (p d); simpl; try reflexivity.
    destruct (k _); reflexivity.
Qed.

Lemma match_at_CRYPTO pos s : match_at CRYPTO_REGEX pos s = crypto_match pos s.
Proof.
  unfold match_at, CRYPTO_REGEX, crypto_match; cbn [mre].
  rewrite rep_exactly_2; cbn [m_pos m_rest m_grp].
  destruct s as [|c [|d s2]]; try reflexivity.
  destruct (is_dollar c); [|reflexivity].
  destruct (is_dollar d); [|reflexivity]; cbn [andb].
  rewrite rep_total by (intro; eexists; reflexivity); cbn [m_pos m_rest m_grp].
  destruct (1 <=? run is_letter 9 s2); [|reflexivity].
  match_arith.
Qed.

Lemma match_at_STOCK pos s : match_at STOCK_REGEX pos s = stock_match pos s.
Proof.
  unfold match_at, STOCK_REGEX, stock_match; cbn [mre m_pos m_rest m_grp].
  destruct s as [|c s1]; [destruct (pos =? 0); reflexivity|].
  unfold not_dollar.
  destruct (pos =? 0) eqn:Ep, (is_dollar c) eqn:Ec; cbn [andb negb];
    try reflexivity.
  - rewrite rep_total by (intro; eexists; reflexivity); cbn [m_pos m_rest m_grp].
    destruct (1 <=? run is_letter 4 s1); [match_arith|].
    destruct s1; reflexivity.
  - destruct s1 as [|d s2]; [reflexivity|].
    destruct (is_dollar d); [|reflexivity]; cbn [andb].
    rewrite rep_total by (intro; eexists; reflexivity); cbn [m_pos m_rest m_grp].
    destruct (1 <=? run is_letter 4 s2); [match_arith|reflexivity].
  - destruct s1; reflexivity.
  - destruct s1 as [|d s2]; [reflexivity|].
    destruct (is_dollar d); [|reflexivity]; cbn [andb].
    rewrite rep_total by (intro; eexists; reflexivity); cbn [m_pos m_rest m_grp].
    destruct (1 <=? run is_letter 4 s2); [match_arith|reflexivity].
Qed.

(** ** The scan *)

Lemma drop_cons_inv {A} (l : list A) n x s :
  drop n l = x :: s -> l !! n = Some x /\ drop (S n) l = s.
Proof.
  revert l; induction n as [|n IH]; intros [|y l] H; simpl in *; try discriminate.
  - inversion H; subst. split; [reflexivity|]. now rewrite drop_0.
  - apply IH; assumption.
Qed.

(** Every element returned by the scan is the group of a successful match
    attempt at some position of the text. *)
Lemma finditer_elem r (text : list ascii) x :
  forall s pos skip,
    s = drop pos text ->
    x ∈ finditer r pos skip s ->
    exists q len, pos <= q /\ match_at r q (drop q text) = Some (len, x).
Proof.
  induction s as [|c s IH]; intros pos skip Hs Hx.
  - destruct skip as [|n]; simpl in Hx; [|inversion Hx].
    destruct (match_at r pos []) as [[len g]|] eqn:E; [|inversion Hx].
    apply list_elem_of_singleton in Hx; subst g.
    exists pos, len. rewrite <- Hs. auto.
  - symmetry in Hs. destruct (drop_cons_inv _ _ _ _ Hs) as [_ Hs'].
    symmetry in Hs'.
    destruct skip as [|n]; simpl in Hx.
    + destruct (match_at r pos (c :: s)) as [[len g]|] eqn:E.
      * apply elem_of_cons in Hx as [->|Hx].
        -- exists pos, len. rewrite Hs. auto.
        -- destruct (IH _ _ Hs' Hx) as (q & l & Hq & Hm).
           exists q, l. split; [lia|assumption].
      * destruct (IH _ _ Hs' Hx) as (q & l & Hq & Hm).
        exists q, l. split; [lia|assumption].
    + destruct (IH _ _ Hs' Hx) as (q & l & Hq & Hm).
      exists q, l. split; [lia|assumption].
Qed.

(** If no match that starts inside a prefix runs past its end, the scan
    reaches the end of the prefix ready to try a match there. *)
Lemma finditer_reach r :
  forall pre s pos skip,
    skip <= length pre ->
    (forall i len g,
        i < length pre ->
        match_at r (pos + i) (drop i (pre ++ s)) = Some (len, g) ->
        i + len <= length pre) ->
    exists found,
      finditer r pos skip (pre ++ s) =
      found ++ finditer r (pos + length pre) 0 s.
Proof.
  induction pre as [|c pre IH]; intros s pos skip Hskip Hin; simpl in *.
  - assert (skip = 0) as -> by lia. exists []. now rewrite Nat.add_0_r.
  - assert (Hin' : forall i len g,
               i < length pre ->
               match_at r (S pos + i) (drop i (pre ++ s)) = Some (len, g) ->
               i + len <= length pre).
    { intros i len g Hi Hm. specialize (Hin (S i) len g).
      simpl in Hin. replace (pos + S i) with (S pos + i) in Hin by lia.
      specialize (Hin ltac:(lia) Hm). lia. }
    replace (pos + S (length pre)) with (S pos + length pre) by lia.
    destruct skip as [|n].
    + destruct (match_at r pos (c :: pre ++ s)) as [[len g]|] eqn:E.
      * specialize (Hin 0 len g). simpl in Hin. rewrite Nat.add_0_r in Hin.
        specialize (Hin ltac:(lia) E).
        destruct (IH s (S pos) (pred len) ltac:(lia) Hin') as [found Hf].
        exists (g :: found). simpl. now rewrite Hf.
      * destruct (IH s (S pos) 0 ltac:(lia) Hin') as [found Hf].
        exists found. assumption.
    + destruct (IH s (S pos) n ltac:(lia) Hin') as [found Hf].
      exists found. assumption.
Qed.

(** ** Where a token stands in the text *)

(** The token starting at position [p] is introduced by one dollar sign: the
    character before it is a dollar sign, itself at the start of the text
    or after a character that is not a dollar sign. *)
Definition single_dollar_before (text : list ascii) (p : nat) : Prop :=
  1 <= p /\ text !! (p - 1) = Some "$"%char /\
  (2 <= p -> exists c, text !! (p - 2) = Some c /\ c <> "$"%char).

(** The token starting at position [p] is introduced by two dollar signs. *)
Definition double_dollar_before (text : list ascii) (p : nat) : Prop :=
  2 <= p /\ text !! (p - 1) = Some "$"%char /\ text !! (p - 2) = Some "$"%char.

Definition occurs_at (text : list ascii) (p : nat) (g : list ascii) : Prop :=
  take (length g) (drop p text) = g.

Definition introduced_by_single (text : string) (p : nat) (tok : string) : Prop :=
  single_dollar_before (list_ascii_of_string text) p /\
  occurs_at (list_ascii_of_string text) p (list_ascii_of_string tok).

Definition introduced_by_double (text : string) (p : nat) (tok : string) : Prop :=
  double_dollar_before (list_ascii_of_string text) p /\
  occurs_at (list_ascii_of_string text) p (list_ascii_of_string tok).

Lemma single_not_double text p :
  single_dollar_before text p -> ~ double_dollar_before text p.
Proof.
  intros (_ & _ & H1) (H2 & _ & H3).
  destruct (H1 H2) as (c & Hc & Hne). congruence.
Qed.

Lemma is_dollar_true c : is_dollar c = true -> c = "$"%char.
Proof. apply Ascii.eqb_eq. Qed.

Lemma not_dollar_true c : not_dollar c = true -> c <> "$"%char.
Proof.
  unfold not_dollar, is_dollar. intros H ->. rewrite Ascii.eqb_refl in H.
  discriminate.
Qed.

Lemma occurs_at_take_run p hi s text q :
  drop q text = s -> occurs_at text q (take (run p hi s) s).
Proof.
  intros <-. unfold occurs_at.
  rewrite length_take, Nat.min_l by apply run_le_length. reflexivity.
Qed.

Lemma stock_match_sound text pos len p g :
  stock_match pos (drop pos text) = Some (len, (p, g)) ->
  single_dollar_before text p /\ occurs_at text p g.
Proof.
  unfold stock_match.
  destruct (drop pos text) as [|c s1] eqn:E; [discriminate|].
  apply drop_cons_inv in E as [Hc E1].
  assert (Ho1 := occurs_at_take_run is_letter 4 s1 text (S pos) E1).
  set (n1 := run is_letter 4 s1) in *.
  destruct ((pos =? 0) && is_dollar c && (1 <=? n1)) eqn:B.
  - intros [= <- <- <-].
    apply andb_prop in B as [B _]. apply andb_prop in B as [Bp Bc].
    apply Nat.eqb_eq in Bp; subst pos. apply is_dollar_true in Bc; subst c.
    split; [|exact Ho1].
    split; [simpl; lia|]. split; [exact Hc|simpl; lia].
  - destruct s1 as [|d s2]; [discriminate|].
    apply drop_cons_inv in E1 as [Hd E2].
    assert (Ho2 := occurs_at_take_run is_letter 4 s2 text (S (S pos)) E2).
    set (n2 := run is_letter 4 s2) in *.
    destruct (not_dollar c && is_dollar d && (1 <=? n2)) eqn:B2;
      [|discriminate].
    intros [= <- <- <-].
    apply andb_prop in B2 as [B2 _]. apply andb_prop in B2 as [Bc Bd].
    apply not_dollar_true in Bc. apply is_dollar_true in Bd; subst d.
    split.
    + split; [lia|].
      replace (pos + 2 - 1) with (S pos) by lia.
      replace (pos + 2 - 2) with pos by lia.
      split; [exact Hd|]. intros _. exists c. auto.
    + now replace (pos + 2) with (S (S pos)) by lia.
Qed.

Lemma crypto_match_sound text pos len p g :
  crypto_match pos (drop pos text) = Some (len, (p, g)) ->
  double_dollar_before text p /\ occurs_at text p g.
Proof.
  unfold crypto_match.
  destruct (drop pos text) as [|c s1] eqn:E; [discriminate|].
  apply drop_cons_inv in E as [Hc E1].
  destruct s1 as [|d s2]; [discriminate|].
  apply drop_cons_inv in E1 as [Hd E2].
  assert (Ho2 := occurs_at_take_run is_letter 9 s2 text (S (S pos)) E2).
  set (n2 := run is_letter 9 s2) in *.
  destruct (is_dollar c && is_dollar d && (1 <=? n2)) eqn:B;
    [|discriminate].
  intros [= <- <- <-].
  apply andb_prop in B as [B _]. apply andb_prop in B as [Bc Bd].
  apply is_dollar_true in Bc, Bd; subst c d.
  split.
  - split; [lia|].
    replace (pos + 2 - 1) with (S pos) by lia.
    replace (pos + 2 - 2) with pos by lia. auto.
  - now replace (pos + 2) with (S (S pos)) by lia.
Qed.

(** Every match of [STOCK_REGEX] captures a token introduced by one dollar
    sign, every match of [CRYPTO_REGEX] one introduced by two. *)
Lemma finditer_STOCK_single text p g :
  (p, g) ∈ finditer STOCK_REGEX 0 0 text ->
  single_dollar_before text p /\ occurs_at text p g.
Proof.
  intros H.
  destruct (finditer_elem STOCK_REGEX text (p, g) text 0 0 eq_refl H)
    as (q & len & _ & Hm).
  rewrite match_at_STOCK in Hm. eapply stock_match_sound; eassumption.
Qed.

Lemma finditer_CRYPTO_double text p g :
  (p, g) ∈ finditer CRYPTO_REGEX 0 0 text ->
  double_dollar_before text p /\ occurs_at text p g.
Proof.
  intros H.
  destruct (finditer_elem CRYPTO_REGEX text (p, g) text 0 0 eq_refl H)
    as (q & len & _ & Hm).
  rewrite match_at_CRYPTO in Hm. eapply crypto_match_sound; eassumption.
Qed.

Lemma list_ascii_of_string_of_list l :
  list_ascii_of_string (string_of_list_ascii l) = l.
Proof. apply list_ascii_of_string_of_list_ascii. Qed.

Lemma findall_elem r text tok :
  tok ∈ findall r text ->
  exists p, (p, list_ascii_of_string tok) ∈ finditer r 0 0 (list_ascii_of_string text).
Proof.
  unfold findall. intros H. apply list_elem_of_fmap in H as ((p & g) & -> & Hg).
  exists p. simpl. now rewrite list_ascii_of_string_of_list.
Qed.

(** ** Mentions that the scan cannot miss *)

Lemma run_lookup p hi s j :
  j < run p hi s -> exists ch, s !! j = Some ch /\ p ch = true.
Proof.
  intros Hj. pose proof (run_Forall p hi s) as HF.
  pose proof (run_le_length p hi s) as Hl.
  destruct (lookup_lt_is_Some_2 s j ltac:(lia)) as [ch Hch].
  exists ch. split; [assumption|].
  rewrite Forall_lookup in HF. apply (HF j).
  rewrite lookup_take_lt by assumption. assumption.
Qed.

Lemma run_exact p :
  forall g s hi,
    take (length g) s = g ->
    Forall (fun c => p c = true) g ->
    length g <= hi ->
    (length g = hi \/ forall c, s !! length g = Some c -> p c = false) ->
    run p hi s = length g.
Proof.
  induction g as [|c g IH]; intros s hi Ht HF Hle Hend; simpl in *.
  - destruct hi as [|hi]; [reflexivity|].
    destruct s as [|d s]; [reflexivity|]. simpl.
    destruct Hend as [Hend|Hend]; [discriminate|].
    now rewrite (Hend d eq_refl).
  - destruct s as [|d s]; [discriminate|]. simpl in Ht.
    injection Ht as -> Ht. destruct hi as [|hi]; [lia|]. simpl.
    apply Forall_cons in HF as [Hc HF]. rewrite Hc. f_equal.
    apply IH; try assumption; [lia|].
    destruct Hend as [Hend|Hend]; [left; lia|right; exact Hend].
Qed.

(** Past its first character, a match of [STOCK_REGEX] holds only dollar
    signs and letters. *)
Lemma stock_match_shape pos s len g j :
  stock_match pos s = Some (len, g) ->
  1 <= j < len ->
  exists ch, s !! j = Some ch /\ (is_dollar ch = true \/ is_letter ch = true).
Proof.
  unfold stock_match. destruct s as [|c s1]; [discriminate|].
  pose proof (run_lookup is_letter 4 s1) as R1.
  set (n1 := run is_letter 4 s1) in *.
  destruct ((pos =? 0) && is_dollar c && (1 <=? n1)).
  - intros [= <- _] Hj. destruct j as [|j]; [lia|].
    destruct (R1 j ltac:(lia)) as (ch & Hch & Hp). simpl. eauto.
  - destruct s1 as [|d s2]; [discriminate|].
    pose proof (run_lookup is_letter 4 s2) as R2.
    set (n2 := run is_letter 4 s2) in *.
    destruct (not_dollar c && is_dollar d && (1 <=? n2)) eqn:B;
      [|discriminate].
    intros [= <- _] Hj. destruct j as [|[|j]]; [lia| |].
    + apply andb_prop in B as [B _]. apply andb_prop in B as [_ Bd].
      simpl. eauto.
    + destruct (R2 j ltac:(lia)) as (ch & Hch & Hp). simpl. eauto.
Qed.

(** A match of [CRYPTO_REGEX] holds two dollar signs, then letters. *)
Lemma crypto_match_shape pos s len g :
  crypto_match pos s = Some (len, g) ->
  3 <= len /\
  forall j, 2 <= j < len -> exists ch, s !! j = Some ch /\ is_letter ch = true.
Proof.
  unfold crypto_match. destruct s as [|c [|d s2]]; try discriminate.
  pose proof (run_lookup is_letter 9 s2) as R2.
  set (n2 := run is_letter 9 s2) in *.
  destruct (is_dollar c && is_dollar d && (1 <=? n2)) eqn:B;
    [|discriminate].
  apply andb_prop in B as [_ B]. apply Nat.leb_le in B.
  intros [= <- _]. split; [lia|]. intros j Hj.
  destruct j as [|[|j]]; [lia|lia|].
  destruct (R2 j ltac:(lia)) as (ch & Hch & Hp). simpl. eauto.
Qed.

(** A token of one to four letters after one dollar sign, not followed by a
    further letter unless it is four letters long, the dollar sign standing
    at the start of the text or after a character that is neither a dollar
    sign nor a letter. *)
Definition stock_mention (text : list ascii) (p : nat) (g : list ascii) : Prop :=
  single_dollar_before text p /\ occurs_at text p g /\
  Forall (fun c => is_letter c = true) g /\ 1 <= length g <= 4 /\
  (length g = 4 \/ forall c, text !! (p + length g) = Some c -> is_letter c = false) /\
  (forall c, 2 <= p -> text !! (p - 2) = Some c -> is_letter c = false).

(** A token of one to nine letters after two dollar signs, not followed by
    a further letter unless it is nine letters long. *)
Definition coin_mention (text : list ascii) (p : nat) (g : list ascii) : Prop :=
  double_dollar_before text p /\ occurs_at text p g /\
  Forall (fun c => is_letter c = true) g /\ 1 <= length g <= 9 /\
  (length g = 9 \/ forall c, text !! (p + length g) = Some c -> is_letter c = false).

Lemma lookup_drop_split {A} (l : list A) n x :
  l !! n = Some x -> l = take n l ++ x :: drop (S n) l.
Proof.
  intros H. rewrite <- (take_drop n l) at 1. f_equal. now apply drop_S.
Qed.

Lemma stock_mention_found text p g :
  stock_mention text p g -> (p, g) ∈ finditer STOCK_REGEX 0 0 text.
Proof.
  intros ((Hp & Hd & Hprev) & Hocc & HF & Hlen & Hend & Hsep).
  assert (Hrun : run is_letter 4 (drop p text) = length g).
  { apply run_exact; try assumption; [lia|].
    destruct Hend as [Hend|Hend]; [left; assumption|right].
    intros c Hc. apply Hend. now rewrite lookup_drop in Hc. }
  destruct (Nat.eq_dec p 1) as [->|Hp1].
  - simpl in Hd. destruct text as [|c s1]; [discriminate|].
    injection Hd as ->. cbn [drop] in Hrun. rewrite drop_0 in Hrun.
    unfold occurs_at in Hocc. cbn [drop] in Hocc. rewrite drop_0 in Hocc.
    cbn [finditer]. rewrite match_at_STOCK. unfold stock_match.
    rewrite Hrun. cbn [Nat.eqb is_dollar Ascii.eqb andb].
    replace (1 <=? length g) with true by (symmetry; apply Nat.leb_le; lia).
    rewrite Hocc. simpl. apply elem_of_cons. left. reflexivity.
  - destruct (Hprev ltac:(lia)) as (c & Hc & Hne).
    assert (Hnl : is_letter c = false) by (apply Hsep; [lia|assumption]).
    assert (Etext : text = take (p - 2) text ++ c :: "$"%char :: drop p text).
    { rewrite (lookup_drop_split text (p - 2) c Hc) at 1. do 2 f_equal.
      replace (S (p - 2)) with (p - 1) by lia.
      erewrite drop_S by exact Hd. do 2 f_equal. lia. }
    assert (Hpre : length (take (p - 2) text) = p - 2).
    { rewrite length_take. apply lookup_lt_Some in Hc. lia. }
    destruct (finditer_reach STOCK_REGEX (take (p - 2) text)
                (c :: "$"%char :: drop p text) 0 0 ltac:(lia)) as [found Hf].
    { rewrite <- Etext. intros i len g' Hi Hm. rewrite Hpre in *.
      rewrite match_at_STOCK in Hm. simpl in Hm.
      destruct (Nat.le_gt_cases (i + len) (p - 2)) as [|Hgt]; [assumption|].
      destruct (stock_match_shape _ _ _ _ (p - 2 - i) Hm ltac:(lia))
        as (ch & Hch & Hcls).
      rewrite lookup_drop in Hch. replace (i + (p - 2 - i)) with (p - 2) in Hch by lia.
      rewrite Hc in Hch. injection Hch as <-.
      destruct Hcls as [Hcls|Hcls]; [|congruence].
      apply is_dollar_true in Hcls. contradiction. }
    rewrite <- Etext in Hf. rewrite Hf, Hpre. apply elem_of_app. right.
    cbn [finditer]. rewrite match_at_STOCK. unfold stock_match.
    assert (Hc' : is_dollar c = false).
    { destruct (is_dollar c) eqn:E; [|reflexivity].
      apply is_dollar_true in E. contradiction. }
    unfold not_dollar. rewrite Hc', Hrun, Bool.andb_false_r.
    cbn [negb is_dollar Ascii.eqb andb].
    replace (1 <=? length g) with true by (symmetry; apply Nat.leb_le; lia).
    rewrite Hocc. replace (0 + (p - 2) + 2) with p by lia.
    apply elem_of_cons. left. reflexivity.
Qed.

Lemma coin_mention_found text p g :
  coin_mention text p g -> (p, g) ∈ finditer CRYPTO_REGEX 0 0 text.
Proof.
  intros ((Hp & Hd1 & Hd2) & Hocc & HF & Hlen & Hend).
  assert (Hrun : run is_letter 9 (drop p text) = length g).
  { apply run_exact; try assumption; [lia|].
    destruct Hend as [Hend|Hend]; [left; assumption|right].
    intros c Hc. apply Hend. now rewrite lookup_drop in Hc. }
  assert (Etext : text = take (p - 2) text ++ "$"%char :: "$"%char :: drop p text).
  { rewrite (lookup_drop_split text (p - 2) _ Hd2) at 1. do 2 f_equal.
    replace (S (p - 2)) with (p - 1) by lia.
    erewrite drop_S by exact Hd1. do 2 f_equal. lia. }
  assert (Hpre : length (take (p - 2) text) = p - 2).
  { rewrite length_take. apply lookup_lt_Some in Hd2. lia. }
  destruct (finditer_reach CRYPTO_REGEX (take (p - 2) text)
              ("$"%char :: "$"%char :: drop p text) 0 0 ltac:(lia)) as [found Hf].
  { rewrite <- Etext. intros i len g' Hi Hm. rewrite Hpre in *.
    rewrite match_at_CRYPTO in Hm. simpl in Hm.
    destruct (Nat.le_gt_cases (i + len) (p - 2)) as [|Hgt]; [assumption|].
    destruct (crypto_match_shape _ _ _ _ Hm) as [H3 Hsh].
    destruct (Nat.eq_dec (p - 2 - i) 1) as [E1|E1].
    - destruct (Hsh 2 ltac:(lia)) as (ch & Hch & Hcls).
      rewrite lookup_drop in Hch. replace (i + 2) with (p - 1) in Hch by lia.
      rewrite Hd1 in Hch. injection Hch as <-. discriminate.
    - destruct (Hsh (p - 2 - i) ltac:(lia)) as (ch & Hch & Hcls).
      rewrite lookup_drop in Hch.
      replace (i + (p - 2 - i)) with (p - 2) in Hch by lia.
      rewrite Hd2 in Hch. injection Hch as <-. discriminate. }
  rewrite <- Etext in Hf. rewrite Hf, Hpre. apply elem_of_app. right.
  cbn [finditer]. rewrite match_at_CRYPTO. unfold crypto_match.
  rewrite Hrun. cbn [is_dollar Ascii.eqb andb].
  replace (1 <=? length g) with true by (symmetry; apply Nat.leb_le; lia).
  rewrite Hocc. replace (0 + (p - 2) + 2) with p by lia.
  apply elem_of_cons. left. reflexivity.
Qed.

(** A match of [SYMBOL_REGEX] holds one dollar sign, then letters. *)
Lemma symbol_match_shape pos s len g j :
  symbol_match pos s = Some (len, g) ->
  1 <= j < len ->
  exists ch, s !! j = Some ch /\ is_letter ch = true.
Proof.
  unfold symbol_match. destruct s as [|c s1]; [discriminate|].
  pose proof (run_lookup is_letter 4 s1) as R1.
  set (n1 := run is_letter 4 s1) in *.
  destruct (is_dollar c && (1 <=? n1)); [|discriminate].
  intros [= <- _] Hj. destruct j as [|j]; [lia|].
  destruct (R1 j ltac:(lia)) as (ch & Hch & Hp). simpl. eauto.
Qed.

(** A token of one to four letters after a dollar sign, whatever stands
    before the dollar sign. *)
Definition dollar_mention (text : list ascii) (p : nat) (g : list ascii) : Prop :=
  1 <= p /\ text !! (p - 1) = Some "$"%char /\ occurs_at text p g /\
  Forall (fun c => is_letter c = true) g /\ 1 <= length g <= 4 /\
  (length g = 4 \/ forall c, text !! (p + length g) = Some c -> is_letter c = false).

(** The pattern of [functions.py] misses no such token, a previous token
    right before the dollar sign or not. *)
Lemma dollar_mention_found text p g :
  dollar_mention text p g -> (p, g) ∈ finditer SYMBOL_REGEX 0 0 text.
Proof.
  intros (Hp & Hd & Hocc & HF & Hlen & Hend).
  assert (Hrun : run is_letter 4 (drop p text) = length g).
  { apply run_exact; try assumption; [lia|].
    destruct Hend as [Hend|Hend]; [left; assumption|right].
    intros c Hc. apply Hend. now rewrite lookup_drop in Hc. }
  assert (Etext : text = take (p - 1) text ++ "$"%char :: drop p text).
  { rewrite (lookup_drop_split text (p - 1) _ Hd) at 1. do 3 f_equal. lia. }
  assert (Hpre : length (take (p - 1) text) = p - 1).
  { rewrite length_take. apply lookup_lt_Some in Hd. lia. }
  destruct (finditer_reach SYMBOL_REGEX (take (p - 1) text)
              ("$"%char :: drop p text) 0 0 ltac:(lia)) as [found Hf].
  { rewrite <- Etext. intros i len g' Hi Hm. rewrite Hpre in *.
    rewrite match_at_SYMBOL in Hm. simpl in Hm.
    destruct (Nat.le_gt_cases (i + len) (p - 1)) as [|Hgt]; [assumption|].
    destruct (symbol_match_shape _ _ _ _ (p - 1 - i) Hm ltac:(lia))
      as (ch & Hch & Hcls).
    rewrite lookup_drop in Hch.
    replace (i + (p - 1 - i)) with (p - 1) in Hch by lia.
    rewrite Hd in Hch. injection Hch as <-. discriminate. }
  rewrite <- Etext in Hf. rewrite Hf, Hpre. apply elem_of_app. right.
  cbn [finditer]. rewrite match_at_SYMBOL. unfold symbol_match.
  rewrite Hrun. cbn [is_dollar Ascii.eqb andb].
  replace (1 <=? length g) with true by (symmetry; apply Nat.leb_le; lia).
  rewrite Hocc. replace (0 + (p - 1) + 1) with p by lia.
  apply elem_of_cons. left. reflexivity.
Qed.

Lemma findall_intro r text p g :
  (p, g) ∈ finditer r 0 0 (list_ascii_of_string text) ->
  string_of_list_ascii g ∈ findall r text.
Proof.
  intros H. unfold findall. apply list_elem_of_fmap. exists (p, g). auto.
Qed.

(** The text holds a stock mention, respectively a coin mention, of [tok]. *)
Definition mentions_stock (text tok : string) : Prop :=
  exists p, stock_mention (list_ascii_of_string text) p (list_ascii_of_string tok).

Definition mentions_coin (text tok : string) : Prop :=
  exists p, coin_mention (list_ascii_of_string text) p (list_ascii_of_string tok).

(** ** [Router.find_symbols] *)

Lemma foldl_append_if {A B} (P : A -> bool) (f : A -> B) (l : list A) :
  forall acc,
    foldl (fun acc x => if P x then acc ++ [f x] else acc) acc l =
    acc ++ map f (filter (fun x => P x = true) l).
Proof.
  induction l as [|x l IH]; intros acc; simpl.
  - now rewrite app_nil_r.
  - rewrite IH. rewrite filter_cons. destruct (P x) eqn:E.
    + rewrite decide_True by reflexivity. simpl. now rewrite <- app_assoc.
    + rewrite decide_False by discriminate. reflexivity.
Qed.

Section RouterFacts.

Variable set_iter : list string -> list string.
Variable stock_symbol_list crypto_symbol_list : list string.

Local Abbreviation find_symbols :=
  (Router.find_symbols set_iter stock_symbol_list crypto_symbol_list).

Definition known_stock (stock : string) : bool :=
  bool_decide (upper stock ∈ stock_symbol_list).

Definition known_coin (coin : string) : bool :=
  bool_decide (lower coin ∈ crypto_symbol_list).

(** The result is the validated stock tokens, wrapped, followed by the
    validated coin tokens, lower-cased and wrapped. *)
Lemma find_symbols_app text :
  find_symbols text =
  map Stock (filter (fun s => known_stock s = true)
                    (set_iter (findall STOCK_REGEX text))) ++
  map (fun c => Coin (lower c))
      (filter (fun c => known_coin c = true)
              (set_iter (findall CRYPTO_REGEX text))).
Proof.
  unfold Router.find_symbols.
  rewrite (foldl_append_if known_stock Stock).
  rewrite (foldl_append_if known_coin (fun c => Coin (lower c))).
  reflexivity.
Qed.

Lemma find_symbols_Stock text s :
  Stock s ∈ find_symbols text ->
  s ∈ set_iter (findall STOCK_REGEX text) /\ upper s ∈ stock_symbol_list.
Proof.
  rewrite find_symbols_app. intros H. apply elem_of_app in H as [H|H].
  - apply list_elem_of_fmap in H as (s' & [= ->] & H).
    apply list_elem_of_filter in H as [Hk H]. split; [assumption|].
    unfold known_stock in Hk. now apply bool_decide_eq_true in Hk.
  - apply list_elem_of_fmap in H as (c & [=] & _).
Qed.

Lemma find_symbols_Coin text c :
  Coin c ∈ find_symbols text ->
  exists tok, c = lower tok /\ tok ∈ set_iter (findall CRYPTO_REGEX text) /\
              lower tok ∈ crypto_symbol_list.
Proof.
  rewrite find_symbols_app. intros H. apply elem_of_app in H as [H|H].
  - apply list_elem_of_fmap in H as (s' & [=] & _).
  - apply list_elem_of_fmap in H as (tok & [= ->] & H).
    apply list_elem_of_filter in H as [Hk H]. exists tok.
    split; [reflexivity|]. split; [assumption|].
    unfold known_coin in Hk. now apply bool_decide_eq_true in Hk.
Qed.

(** C10. In the list returned by [Router.find_symbols] every [Stock]
    stands before every [Coin], whatever the order of the mentions in the
    text and whatever the iteration order of the two sets. *)
Theorem find_symbols_stocks_before_coins text i j s c :
  find_symbols text !! i = Some (Stock s) ->
  find_symbols text !! j = Some (Coin c) ->
  i < j.
Proof.
  rewrite find_symbols_app.
  set (stocks := map Stock _). set (coins := map (fun c => Coin (lower c)) _).
  intros Hi Hj.
  destruct (Nat.lt_ge_cases i (length stocks)) as [Hl|Hl].
  - destruct (Nat.lt_ge_cases j (length stocks)) as [Hl'|Hl']; [|lia].
    rewrite lookup_app_l in Hj by assumption.
    apply list_elem_of_lookup_2 in Hj.
    apply list_elem_of_fmap in Hj as (? & [=] & _).
  - rewrite lookup_app_r in Hi by assumption.
    apply list_elem_of_lookup_2 in Hi.
    apply list_elem_of_fmap in Hi as (? & [=] & _).
Qed.

(** From here on the iteration of a set enumerates each element once. *)
Hypothesis set_iter_perm : forall l, set_iter l ≡ₚ remove_dups l.

Lemma elem_of_set_iter x l : x ∈ set_iter l <-> x ∈ l.
Proof. rewrite set_iter_perm. apply elem_of_remove_dups. Qed.

Lemma NoDup_set_iter l : NoDup (set_iter l).
Proof. rewrite set_iter_perm. apply NoDup_remove_dups. Qed.

Lemma set_iter_nil : set_iter [] = [].
Proof. apply Permutation_nil_r. rewrite set_iter_perm. reflexivity. Qed.

Lemma set_iter_singleton x : set_iter [x] = [x].
Proof.
  apply Permutation_singleton_r. rewrite set_iter_perm. simpl.
  reflexivity.
Qed.

Lemma find_symbols_Stock_intro text s :
  s ∈ findall STOCK_REGEX text -> upper s ∈ stock_symbol_list ->
  Stock s ∈ find_symbols text.
Proof.
  intros Hs Hk. rewrite find_symbols_app. apply elem_of_app. left.
  apply list_elem_of_fmap. exists s. split; [reflexivity|].
  apply list_elem_of_filter. split; [|now apply elem_of_set_iter].
  unfold known_stock. now apply bool_decide_eq_true.
Qed.

Lemma find_symbols_Coin_intro text tok :
  tok ∈ findall CRYPTO_REGEX text -> lower tok ∈ crypto_symbol_list ->
  Coin (lower tok) ∈ find_symbols text.
Proof.
  intros Hs Hk. rewrite find_symbols_app. apply elem_of_app. right.
  apply list_elem_of_fmap. exists tok. split; [reflexivity|].
  apply list_elem_of_filter. split; [|now apply elem_of_set_iter].
  unfold known_coin. now apply bool_decide_eq_true.
Qed.

(** The [Stock] elements of a result carry pairwise different strings
    (compared with case). *)
Lemma find_symbols_stocks_NoDup text :
  NoDup (filter (fun o => is_Stock o = true) (find_symbols text)).
Proof.
  rewrite find_symbols_app, filter_app.
  assert (E : filter (fun o => is_Stock o = true)
                (map (fun c => Coin (lower c))
                   (filter (fun c => known_coin c = true)
                      (set_iter (findall CRYPTO_REGEX text)))) = []).
  { induction (filter _ (set_iter (findall CRYPTO_REGEX text))) as [|c l IH];
      [reflexivity|]. simpl. rewrite filter_cons, decide_False by discriminate.
    exact IH. }
  rewrite E, app_nil_r. apply NoDup_filter.
  apply (NoDup_fmap_2 Stock).
  apply NoDup_filter, NoDup_set_iter.
Qed.

(** C3 (the code departs from it). Mentions of one coin, or of one
    stock, that differ in letter case are returned twice: the set removes
    equal strings only, while validation folds the case. The same holds of
    [Symbol.find_symbols] in [functions.py]. *)
Theorem find_symbols_case_duplicates :
  ("btc"%string ∈ crypto_symbol_list ->
   find_symbols "$$btc $$BTC" = [Coin "btc"; Coin "btc"]) /\
  ("TSLA"%string ∈ stock_symbol_list ->
   find_symbols "$tsla $TSLA" ≡ₚ [Stock "tsla"; Stock "TSLA"]) /\
  Functions.find_symbols set_iter "$tsla $TSLA" ≡ₚ ["tsla"%string; "TSLA"%string].
Proof.
  split; [|split]; [intros Hin; rewrite find_symbols_app ..|].
  - replace (findall STOCK_REGEX "$$btc $$BTC") with (@nil string)
      by reflexivity.
    replace (findall CRYPTO_REGEX "$$btc $$BTC")
      with ["btc"%string; "BTC"%string] by reflexivity.
    rewrite set_iter_nil. simpl.
    assert (Hk1 : known_coin "btc" = true)
      by (unfold known_coin; now apply bool_decide_eq_true).
    assert (Hk2 : known_coin "BTC" = true)
      by (unfold known_coin; now apply bool_decide_eq_true).
    pose proof (set_iter_perm ["btc"%string; "BTC"%string]) as Hp.
    replace (remove_dups ["btc"%string; "BTC"%string])
      with ["btc"%string; "BTC"%string] in Hp by reflexivity.
    symmetry in Hp. apply Permutation_length_2_inv in Hp as [-> | ->];
      rewrite !filter_cons, filter_nil, Hk1, Hk2;
      rewrite !decide_True by reflexivity; reflexivity.
  - replace (findall CRYPTO_REGEX "$tsla $TSLA") with (@nil string)
      by reflexivity.
    replace (findall STOCK_REGEX "$tsla $TSLA")
      with ["tsla"%string; "TSLA"%string] by reflexivity.
    rewrite set_iter_nil. simpl. rewrite app_nil_r.
    assert (Hk1 : known_stock "tsla" = true)
      by (unfold known_stock; now apply bool_decide_eq_true).
    assert (Hk2 : known_stock "TSLA" = true)
      by (unfold known_stock; now apply bool_decide_eq_true).
    pose proof (set_iter_perm ["tsla"%string; "TSLA"%string]) as Hp.
    replace (remove_dups ["tsla"%string; "TSLA"%string])
      with ["tsla"%string; "TSLA"%string] in Hp by reflexivity.
    symmetry in Hp. apply Permutation_length_2_inv in Hp as [-> | ->];
      rewrite !filter_cons, filter_nil, Hk1, Hk2;
      rewrite !decide_True by reflexivity; simpl;
      [reflexivity|apply perm_swap].
  - unfold Functions.find_symbols. rewrite set_iter_perm. reflexivity.
Qed.

(** C4 (the code departs from its last part). A [Stock] is returned only
    for a token introduced by one dollar sign and a [Coin] only for a token
    introduced by two, and no token is both; ["$$abc"] yields no [Stock] and
    ["$abc"] no [Coin]; when [abc] is in both reference lists, the text
    ["$abc $$abc"] yields exactly one [Stock] and one [Coin]. Yet a text
    that holds both ["$abc"] and ["$$abc"] need not yield both: in
    ["$x$abc $$abc"] the token [abc] at position 3 is introduced by one
    dollar sign and the token [abc] at position 9 by two, and only the
    [Coin] is returned. The letter before the first of these dollar signs
    belongs to the match of [x], so that [STOCK_REGEX] cannot match there
    (the fault of C5); [Symbol.find_symbols] of [functions.py] returns the
    token. *)
Theorem find_symbols_no_cross_match :
  (forall text s, Stock s ∈ find_symbols text ->
                  exists p, introduced_by_single text p s) /\
  (forall text c, Coin c ∈ find_symbols text ->
                  exists p tok, introduced_by_double text p tok /\ c = lower tok) /\
  (forall text p tok tok',
      introduced_by_single text p tok -> ~ introduced_by_double text p tok') /\
  (forall o, o ∈ find_symbols "$$abc" -> is_Stock o = false) /\
  (forall o, o ∈ find_symbols "$abc" -> is_Coin o = false) /\
  ("ABC"%string ∈ stock_symbol_list -> "abc"%string ∈ crypto_symbol_list ->
   find_symbols "$abc $$abc" = [Stock "abc"; Coin "abc"] /\
   introduced_by_single "$x$abc $$abc" 3 "abc" /\
   introduced_by_double "$x$abc $$abc" 9 "abc" /\
   find_symbols "$x$abc $$abc" =
     (if bool_decide ("X"%string ∈ stock_symbol_list) then [Stock "x"] else [])
     ++ [Coin "abc"] /\
   (Stock "abc" ∉ find_symbols "$x$abc $$abc") /\
   Functions.find_symbols set_iter "$x$abc $$abc" ≡ₚ ["x"%string; "abc"%string]).
Proof.
  repeat apply conj.
  - intros text s H. apply find_symbols_Stock in H as [H _].
    apply elem_of_set_iter, findall_elem in H as [p H].
    exists p. now apply finditer_STOCK_single.
  - intros text c H. apply find_symbols_Coin in H as (tok & -> & H & _).
    apply elem_of_set_iter, findall_elem in H as [p H].
    exists p, tok. split; [|reflexivity]. now apply finditer_CRYPTO_double.
  - intros text p tok tok' [H1 _] [H2 _]. revert H2.
    now apply single_not_double.
  - intros o. rewrite find_symbols_app.
    replace (findall STOCK_REGEX "$$abc") with (@nil string) by reflexivity.
    rewrite set_iter_nil. simpl. intros H.
    apply list_elem_of_fmap in H as (c & -> & _). reflexivity.
  - intros o. rewrite find_symbols_app.
    replace (findall CRYPTO_REGEX "$abc") with (@nil string) by reflexivity.
    rewrite set_iter_nil. simpl. rewrite app_nil_r. intros H.
    apply list_elem_of_fmap in H as (c & -> & _). reflexivity.
  - intros HA Ha.
    assert (Hk1 : known_stock "abc" = true)
      by (unfold known_stock; now apply bool_decide_eq_true).
    assert (Hk2 : known_coin "abc" = true)
      by (unfold known_coin; now apply bool_decide_eq_true).
    assert (E : find_symbols "$x$abc $$abc" =
                (if bool_decide ("X"%string ∈ stock_symbol_list)
                 then [Stock "x"] else []) ++ [Coin "abc"]).
    { rewrite find_symbols_app.
      replace (findall STOCK_REGEX "$x$abc $$abc") with ["x"%string]
        by reflexivity.
      replace (findall CRYPTO_REGEX "$x$abc $$abc") with ["abc"%string]
        by reflexivity.
      rewrite !set_iter_singleton.
      rewrite !filter_cons, !filter_nil, Hk2.
      change (known_stock "x") with (bool_decide ("X"%string ∈ stock_symbol_list)).
      rewrite (decide_True (P := true = true)) by reflexivity.
      destruct (bool_decide ("X"%string ∈ stock_symbol_list));
        [rewrite decide_True by reflexivity|rewrite decide_False by discriminate];
        reflexivity. }
    split; [|split; [|split; [|split; [exact E|split]]]].
    + rewrite find_symbols_app.
      replace (findall STOCK_REGEX "$abc $$abc") with ["abc"%string]
        by reflexivity.
      replace (findall CRYPTO_REGEX "$abc $$abc") with ["abc"%string]
        by reflexivity.
      rewrite set_iter_singleton.
      rewrite !filter_cons, !filter_nil, Hk1, Hk2.
      rewrite !decide_True by reflexivity. reflexivity.
    + split; [|reflexivity]. split; [lia|]. split; [reflexivity|].
      intros _. exists "x"%char. split; [reflexivity|discriminate].
    + split; [|reflexivity]. split; [lia|]. split; reflexivity.
    + rewrite E. intros H. apply elem_of_app in H as [H|H].
      * destruct (bool_decide ("X"%string ∈ stock_symbol_list));
          [apply list_elem_of_singleton in H; discriminate H|inversion H].
      * apply list_elem_of_singleton in H. discriminate H.
    + unfold Functions.find_symbols. rewrite set_iter_perm. reflexivity.
Qed.

End RouterFacts.



(** C5 (the code departs from it). In ["$a$b"] the second dollar sign
    follows the letter [a], not a dollar sign, and is followed by one letter,
    yet [STOCK_REGEX] extracts [a] only: the character before a dollar sign
    is consumed by the match, and here it belongs to the previous match. The
    pattern of [functions.py] extracts both. *)
Theorem stock_regex_misses_adjacent_mention :
  findall STOCK_REGEX "$a$b" = ["a"%string] /\
  single_dollar_before (list_ascii_of_string "$a$b") 3 /\
  occurs_at (list_ascii_of_string "$a$b") 3 (list_ascii_of_string "b") /\
  findall SYMBOL_REGEX "$a$b" = ["a"%string; "b"%string].
Proof.
  split; [reflexivity|]. split; [|split; reflexivity].
  split; [lia|]. split; [reflexivity|].
  intros _. exists "a"%char. split; [reflexivity|discriminate].
Qed.

(** ** The batch operations of the router *)

Definition valid_symbol (o : PyObj) : bool := is_Stock o || is_Coin o.

Lemma filter_Forall_id {A} (P : A -> Prop) `{forall x, Decision (P x)} l :
  Forall P l -> filter P l = l.
Proof.
  induction 1 as [|x l Hx _ IH]; [reflexivity|].
  now rewrite filter_cons_True, IH.
Qed.

Section RouterReplyFacts.

Variable World : Type.
Local Abbreviation backend := (Router.backend World).

(** The reply produced for one symbol, in a given state of the world. *)
Definition reply_for (on_stock on_coin : backend) (o : PyObj) (w : World)
  : option string :=
  match o with
  | Stock s => Some (fst (on_stock s w))
  | Coin s => Some (fst (on_coin s w))
  | Other _ => None
  end.

Section Loop.
Variables on_stock on_coin : backend.
Local Abbreviation loop := (Router.reply_loop World on_stock on_coin).
Local Abbreviation step := (Router.reply_step World on_stock on_coin).

Lemma reply_loop_snoc symbols o w :
  loop (symbols ++ [o]) w = step (loop symbols w) o.
Proof. unfold Router.reply_loop. now rewrite foldl_app. Qed.

Lemma reply_loop_length symbols w :
  length (fst (loop symbols w)) =
  length (filter (fun o => valid_symbol o = true) symbols).
Proof.
  induction symbols as [|o symbols IH] using rev_ind; [reflexivity|].
  rewrite reply_loop_snoc, filter_app, length_app.
  destruct (loop symbols w) as [replies w'] eqn:E. simpl in IH.
  rewrite <- IH. destruct o as [s|s|r]; simpl.
  - destruct (on_stock s w'). simpl. now rewrite length_app.
  - destruct (on_coin s w'). simpl. now rewrite length_app.
  - lia.
Qed.

Lemma reply_loop_lookup symbols w :
  Forall (fun o => valid_symbol o = true) symbols ->
  forall i o, symbols !! i = Some o ->
    fst (loop symbols w) !! i =
    reply_for on_stock on_coin o (snd (loop (take i symbols) w)).
Proof.
  induction symbols as [|x symbols IH] using rev_ind; intros HF i o Hi.
  - discriminate.
  - apply Forall_app in HF as [HF Hx]. apply Forall_inv in Hx.
    pose proof (reply_loop_length symbols w) as Hlen.
    rewrite (filter_Forall_id _ _ HF) in Hlen.
    rewrite reply_loop_snoc.
    destruct (Nat.lt_ge_cases i (length symbols)) as [Hlt|Hge].
    + rewrite lookup_app_l in Hi by assumption.
      rewrite take_app_le by lia.
      rewrite <- (IH HF i o Hi).
      destruct (loop symbols w) as [replies w'] eqn:E. simpl in Hlen.
      destruct x as [s|s|r]; simpl; [| |discriminate Hx].
      * destruct (on_stock s w'). simpl. now rewrite lookup_app_l by lia.
      * destruct (on_coin s w'). simpl. now rewrite lookup_app_l by lia.
    + pose proof (lookup_lt_Some _ _ _ Hi) as Hb.
      rewrite length_app in Hb. simpl in Hb.
      assert (i = length symbols) as -> by lia.
      rewrite list_lookup_middle in Hi by reflexivity. injection Hi as <-.
      rewrite take_app_length.
      destruct (loop symbols w) as [replies w'] eqn:E. simpl in Hlen.
      destruct x as [s|s|r]; simpl; [| |discriminate Hx].
      * destruct (on_stock s w'). simpl.
        now rewrite list_lookup_middle by lia.
      * destruct (on_coin s w'). simpl.
        now rewrite list_lookup_middle by lia.
Qed.

End Loop.

(** What the specification asks of a batch operation [op] whose backends
    are [on_stock] and [on_coin]. *)
Definition order_preserving
           (op : list PyObj -> World -> list string * World)
           (on_stock on_coin : backend) : Prop :=
  forall symbols w,
    length (fst (op symbols w)) <= length symbols /\
    (Forall (fun o => valid_symbol o = true) symbols ->
     length (fst (op symbols w)) = length symbols /\
     forall i o, symbols !! i = Some o ->
       fst (op symbols w) !! i =
       reply_for on_stock on_coin o (snd (op (take i symbols) w))).

Lemma reply_loop_order_preserving on_stock on_coin :
  order_preserving (Router.reply_loop World on_stock on_coin) on_stock on_coin.
Proof.
  intros symbols w. rewrite reply_loop_length. split.
  - apply length_filter.
  - intros HF. split.
    + now rewrite (filter_Forall_id _ _ HF).
    + now apply reply_loop_lookup.
Qed.

Variables stock_price_reply stock_dividend_reply stock_news_reply
          stock_info_reply stock_stat_reply : backend.
Variables crypto_price_reply crypto_info_reply crypto_stat_reply : backend.

(** C9. Each batch operation returns at most as many replies as it was
    given symbols; when every symbol is a [Stock] or a [Coin] it returns
    as many, and the i-th reply is the one its backend produces for the
    i-th symbol (in the state of the world left by the symbols before). *)
Theorem batch_replies_order_preserving :
  order_preserving (Router.price_reply World stock_price_reply crypto_price_reply)
                   stock_price_reply crypto_price_reply /\
  order_preserving (Router.dividend_reply World stock_dividend_reply)
                   stock_dividend_reply
                   (Router.fixed_reply World "Cryptocurrencies do no have Dividends.") /\
  order_preserving (Router.news_reply World stock_news_reply)
                   stock_news_reply
                   (Router.fixed_reply World "News is not yet supported for cryptocurrencies.") /\
  order_preserving (Router.info_reply World stock_info_reply crypto_info_reply)
                   stock_info_reply crypto_info_reply /\
  order_preserving (Router.stat_reply World stock_stat_reply crypto_stat_reply)
                   stock_stat_reply crypto_stat_reply.
Proof. repeat apply conj; apply reply_loop_order_preserving. Qed.

End RouterReplyFacts.

(** ** The table under scoring and sorting *)

(** A row with its score forgotten: what identifies the row. *)
Definition erase_Match (x : Row) : Row := set_Match 0 x.

(** The columns once "Match" has been assigned. *)
Definition with_Match (cols : list string) : list string :=
  if bool_decide ("Match"%string ∈ cols) then cols else cols ++ ["Match"%string].

Lemma erase_set_Match v x : erase_Match (set_Match v x) = erase_Match x.
Proof. reflexivity. Qed.

Lemma with_Match_idem cols : with_Match (with_Match cols) = with_Match cols.
Proof.
  unfold with_Match. destruct (bool_decide ("Match"%string ∈ cols)) eqn:E.
  - now rewrite E.
  - rewrite bool_decide_eq_true_2; [reflexivity|].
    apply elem_of_app. right. apply list_elem_of_singleton. reflexivity.
Qed.

Lemma map_erase_assign f l :
  map erase_Match (map (fun x => set_Match (f x) x) l) = map erase_Match l.
Proof. rewrite map_map. apply map_ext. intros x. apply erase_set_Match. Qed.

Global Instance Match_ge_trans : Transitive Match_ge.
Proof. unfold Match_ge. intros x y z; lia. Qed.

Global Instance Match_ge_total : Total Match_ge.
Proof. unfold Match_ge. intros x y; lia. Qed.

Lemma sorted_head_max r1 rest :
  Sorted Match_ge (r1 :: rest) ->
  forall r, r ∈ r1 :: rest -> (Match r <= Match r1)%Z.
Proof.
  intros HS r Hr. apply Sorted_StronglySorted in HS; [|apply _].
  apply StronglySorted_inv in HS as [_ HF].
  apply elem_of_cons in Hr as [->|Hr]; [lia|].
  rewrite Forall_forall in HF. now apply HF.
Qed.

Section FunctionsFacts.

Import Functions.

Variables ratio partial_ratio : string -> string -> Z.
Variable sort_values : list Row -> list Row.

Local Abbreviation ticker_score := (Functions.ticker_score ratio).
Local Abbreviation name_score := (Functions.name_score partial_ratio).
Local Abbreviation sort_df := (Functions.sort_df sort_values).
Local Abbreviation rank := (Functions.rank ratio partial_ratio sort_values).
Local Abbreviation search_symbols :=
  (Functions.search_symbols ratio partial_ratio sort_values).

(** *** Cache and staleness test *)

Lemma search_hit fetched now search self hit :
  searched_symbols self !! search = Some hit ->
  search_symbols fetched now search self = (hit, self).
Proof. intros H. unfold Functions.search_symbols. now rewrite H. Qed.

Lemma search_miss fetched now search self :
  searched_symbols self !! search = None ->
  search_symbols fetched now search self =
  (project (head10 (rank search (fst (refresh_if_stale fetched now self)))),
   mkState (rank search (fst (refresh_if_stale fetched now self)))
           (snd (refresh_if_stale fetched now self))
           (<[search := project (head10 (rank search
                            (fst (refresh_if_stale fetched now self))))]>
              (searched_symbols self))).
Proof.
  intros H. unfold Functions.search_symbols. rewrite H.
  now destruct (refresh_if_stale fetched now self).
Qed.

Lemma search_caches fetched now search self :
  searched_symbols (snd (search_symbols fetched now search self)) !! search =
  Some (fst (search_symbols fetched now search self)).
Proof.
  destruct (searched_symbols self !! search) as [hit|] eqn:E.
  - now rewrite (search_hit _ _ _ _ _ E).
  - rewrite (search_miss _ _ _ _ E). cbn [fst snd searched_symbols].
    apply lookup_insert_eq.
Qed.

Lemma project_head10_length df : length (project (head10 df)) <= 10.
Proof.
  unfold project, head10. simpl. rewrite length_map, length_take. lia.
Qed.

(** Every cached result has at most ten entries. *)
Definition cache_bounded (self : State) : Prop :=
  forall k v, searched_symbols self !! k = Some v -> length v <= 10.

Lemma search_keeps_cache_bounded fetched now search self :
  cache_bounded self ->
  cache_bounded (snd (search_symbols fetched now search self)).
Proof.
  intros Hb. destruct (searched_symbols self !! search) as [hit|] eqn:E.
  - now rewrite (search_hit _ _ _ _ _ E).
  - rewrite (search_miss _ _ _ _ E). unfold cache_bounded.
    cbn [snd searched_symbols]. intros k v.
    rewrite lookup_insert. case_decide.
    + intros [= <-]. apply project_head10_length.
    + apply Hb.
Qed.

(** The states the class goes through: the cache, a class attribute, is
    empty when the class is created; constructing an instance sets the table
    and its time stamp and leaves the cache alone; after that only
    [search_symbols] touches the three. *)
Inductive reachable : State -> Prop :=
| reachable_init df ts : reachable (mkState df ts ∅)
| reachable_new_instance df ts self :
    reachable self ->
    reachable (mkState df ts (searched_symbols self))
| reachable_search fetched now search self :
    reachable self ->
    reachable (snd (search_symbols fetched now search self)).

Lemma reachable_cache_bounded self : reachable self -> cache_bounded self.
Proof.
  induction 1 as [df ts|df ts self _ IH|fetched now search self _ IH].
  - intros k v. simpl. now rewrite lookup_empty.
  - exact IH.
  - now apply search_keeps_cache_bounded.
Qed.

(** C8. A second call with the same query returns the list the first call
    returned, and every list returned has at most ten entries. *)
Theorem search_symbols_idempotent_bounded :
  (forall fetched now fetched' now' q self,
      fst (search_symbols fetched' now' q
             (snd (search_symbols fetched now q self))) =
      fst (search_symbols fetched now q self)) /\
  (forall self, reachable self ->
     forall fetched now q,
       length (fst (search_symbols fetched now q self)) <= 10).
Proof.
  split.
  - intros fetched now fetched' now' q self.
    now rewrite (search_hit _ _ _ _ _ (search_caches fetched now q self)).
  - intros self Hr fetched now q.
    destruct (searched_symbols self !! q) as [hit|] eqn:E.
    + rewrite (search_hit _ _ _ _ _ E). simpl.
      now apply (reachable_cache_bounded self Hr q).
    + rewrite (search_miss _ _ _ _ E). simpl. apply project_head10_length.
Qed.

(** C1 (the code departs from it). The staleness test subtracts the
    current time from the time of the last fetch: as long as the clock has
    not gone back past that time the difference is not positive, and the
    reference list is kept however long ago it was fetched. *)
Theorem search_symbols_never_refreshes fetched now search self :
  (symbol_ts self <= now)%Z ->
  refresh_if_stale fetched now self = (symbol_list self, symbol_ts self) /\
  symbol_ts (snd (search_symbols fetched now search self)) = symbol_ts self /\
  (searched_symbols self !! search = None ->
   symbol_list (snd (search_symbols fetched now search self)) =
   rank search (symbol_list self)).
Proof.
  intros Hle.
  assert (E : refresh_if_stale fetched now self =
              (symbol_list self, symbol_ts self)).
  { unfold refresh_if_stale, stale, TTL.
    destruct (Z.gtb_spec (symbol_ts self - now) (3 * 3600 * 1000000));
      [lia|reflexivity]. }
  split; [exact E|].
  destruct (searched_symbols self !! search) as [hit|] eqn:Hc.
  - rewrite (search_hit _ _ _ _ _ Hc). split; [reflexivity|discriminate].
  - rewrite (search_miss _ _ _ _ Hc), E. simpl. auto.
Qed.

End FunctionsFacts.

(** ** Ranking *)

Section RankingFacts.

Import Functions.

Variables ratio partial_ratio : string -> string -> Z.
Variable sort_values : list Row -> list Row.

(** [sort_values] rearranges the rows in descending order of "Match". *)
Hypothesis sort_values_perm : forall l, sort_values l ≡ₚ l.
Hypothesis sort_values_sorted : forall l, Sorted Match_ge (sort_values l).

Local Abbreviation ticker_score := (Functions.ticker_score ratio).
Local Abbreviation name_score := (Functions.name_score partial_ratio).
Local Abbreviation sort_df := (Functions.sort_df sort_values).
Local Abbreviation rank := (Functions.rank ratio partial_ratio sort_values).
Local Abbreviation search_symbols :=
  (Functions.search_symbols ratio partial_ratio sort_values).

(** The table after the first scoring and sorting. *)
Definition by_ticker (search : string) (df : DataFrame) : DataFrame :=
  sort_df (assign_Match (ticker_score search) df).

(** The table after the second scoring and sorting. *)
Definition by_name (search : string) (df : DataFrame) : DataFrame :=
  sort_df (assign_Match (name_score search) (by_ticker search df)).

Lemma rank_cases search df :
  rank search df =
  if (head_sum (by_ticker search df) <? 300)%Z then by_name search df
  else by_ticker search df.
Proof. reflexivity. Qed.

Lemma scored_sorted_rows (f : Row -> Z) df :
  (forall v x, f (set_Match v x) = f x) ->
  Forall (fun r => Match r = f r) (rows (sort_df (assign_Match f df))) /\
  Sorted Match_ge (rows (sort_df (assign_Match f df))) /\
  map erase_Match (rows (sort_df (assign_Match f df))) ≡ₚ
    map erase_Match (rows df) /\
  columns (sort_df (assign_Match f df)) = with_Match (columns df).
Proof.
  intros Hf. unfold Functions.sort_df, assign_Match. simpl.
  split; [|split; [|split]].
  - rewrite sort_values_perm. apply Forall_forall. intros r Hr.
    apply list_elem_of_fmap in Hr as (x & -> & _). simpl. now rewrite Hf.
  - apply sort_values_sorted.
  - rewrite sort_values_perm. now rewrite map_erase_assign.
  - reflexivity.
Qed.

Lemma ticker_score_set_Match search v x :
  ticker_score search (set_Match v x) = ticker_score search x.
Proof. reflexivity. Qed.

Lemma name_score_set_Match search v x :
  name_score search (set_Match v x) = name_score search x.
Proof. reflexivity. Qed.

Lemma by_ticker_spec search df :
  Forall (fun r => Match r = ratio (lower search) (lower (Symbol r)))
         (rows (by_ticker search df)) /\
  Sorted Match_ge (rows (by_ticker search df)) /\
  map erase_Match (rows (by_ticker search df)) ≡ₚ map erase_Match (rows df) /\
  columns (by_ticker search df) = with_Match (columns df).
Proof.
  apply (scored_sorted_rows (ticker_score search)).
  apply ticker_score_set_Match.
Qed.

Lemma by_name_spec search df :
  Forall (fun r => Match r = partial_ratio (lower search) (lower (Issue_Name r)))
         (rows (by_name search df)) /\
  Sorted Match_ge (rows (by_name search df)) /\
  map erase_Match (rows (by_name search df)) ≡ₚ map erase_Match (rows df) /\
  columns (by_name search df) = with_Match (columns df).
Proof.
  destruct (scored_sorted_rows (name_score search) (by_ticker search df)
              (name_score_set_Match search)) as (H1 & H2 & H3 & H4).
  destruct (by_ticker_spec search df) as (_ & _ & H5 & H6).
  split; [exact H1|]. split; [exact H2|]. split.
  - now rewrite <- H5.
  - unfold by_name. rewrite H4, H6. apply with_Match_idem.
Qed.

Lemma rank_rows_perm search df :
  map erase_Match (rows (rank search df)) ≡ₚ map erase_Match (rows df).
Proof.
  rewrite rank_cases. destruct (_ <? _)%Z.
  - apply by_name_spec.
  - apply by_ticker_spec.
Qed.

Lemma rank_sorted search df : Sorted Match_ge (rows (rank search df)).
Proof.
  rewrite rank_cases. destruct (_ <? _)%Z.
  - apply by_name_spec.
  - apply by_ticker_spec.
Qed.

Lemma rank_columns search df :
  columns (rank search df) = with_Match (columns df).
Proof.
  rewrite rank_cases. destruct (_ <? _)%Z.
  - apply by_name_spec.
  - apply by_ticker_spec.
Qed.

(** The sum that is compared with 300 is the sum of the ticker scores of
    the first five rows of the first ranking (of all of them when there are
    fewer than five). *)
Lemma head_sum_by_ticker search df :
  head_sum (by_ticker search df) =
  foldr Z.add 0%Z
        (map (fun r => ratio (lower search) (lower (Symbol r)))
             (take 5 (rows (by_ticker search df)))).
Proof.
  destruct (by_ticker_spec search df) as (H & _).
  unfold head_sum. f_equal.
  apply (Forall_take _ 5) in H.
  induction H as [|r l Hr _ IH]; [reflexivity|].
  simpl. now rewrite Hr, IH.
Qed.

(** C7. On a table with rows, every row is first scored by the similarity
    of the lower-cased query and the lower-cased ticker, and the rows sorted
    in descending order, so that the first five rows hold the five best
    scores; when these five scores sum to less than 300, every row is
    scored again, by the partial similarity of the (lower-cased) query and
    the (lower-cased) issue name, and the rows sorted again; when they sum
    to 300 or more, the first ranking stands. On a cache miss
    [search_symbols] leaves that ranking in the table and returns its first
    ten rows. *)
Theorem search_symbols_two_tier search df :
  rows df <> [] ->
  (Forall (fun r => Match r = ratio (lower search) (lower (Symbol r)))
          (rows (by_ticker search df)) /\
   Sorted Match_ge (rows (by_ticker search df)) /\
   map erase_Match (rows (by_ticker search df)) ≡ₚ map erase_Match (rows df)) /\
  ((foldr Z.add 0
      (map (fun r => ratio (lower search) (lower (Symbol r)))
           (take 5 (rows (by_ticker search df)))) < 300)%Z ->
   rank search df = by_name search df /\
   Forall (fun r => Match r = partial_ratio (lower search) (lower (Issue_Name r)))
          (rows (rank search df)) /\
   Sorted Match_ge (rows (rank search df)) /\
   map erase_Match (rows (rank search df)) ≡ₚ map erase_Match (rows df)) /\
  ((300 <= foldr Z.add 0
             (map (fun r => ratio (lower search) (lower (Symbol r)))
                  (take 5 (rows (by_ticker search df)))))%Z ->
   rank search df = by_ticker search df) /\
  (forall fetched now self,
      searched_symbols self !! search = None ->
      fst (refresh_if_stale fetched now self) = df ->
      symbol_list (snd (search_symbols fetched now search self)) = rank search df /\
      fst (search_symbols fetched now search self) =
      map (fun x => (Symbol x, Description x)) (take 10 (rows (rank search df)))).
Proof.
  intros _. rewrite <- head_sum_by_ticker.
  split; [|split; [|split]].
  - destruct (by_ticker_spec search df) as (H1 & H2 & H3 & _). auto.
  - intros Hlt. rewrite rank_cases.
    destruct (Z.ltb_spec (head_sum (by_ticker search df)) 300); [|lia].
    destruct (by_name_spec search df) as (H1 & H2 & H3 & _). auto.
  - intros Hge. rewrite rank_cases.
    destruct (Z.ltb_spec (head_sum (by_ticker search df)) 300); [lia|].
    reflexivity.
  - intros fetched now self Hmiss <-.
    rewrite (search_miss _ _ _ _ _ _ _ Hmiss). split; reflexivity.
Qed.

(** C2 (as amended). A call that finds the query in the cache leaves the
    stored table as it is, whatever the time. A call that does not find
    it, does not refresh and works on a table with at least one row
    rewrites the stored table in place: the column "Match" is added (or
    overwritten) and the rows are rearranged in descending order of their
    score; apart from the score the rows are the same. *)
Theorem search_symbols_table_effect fetched now search self :
  (is_Some (searched_symbols self !! search) ->
   symbol_list (snd (search_symbols fetched now search self)) = symbol_list self) /\
  (searched_symbols self !! search = None ->
   stale (symbol_ts self) now = false ->
   rows (symbol_list self) <> [] ->
   columns (symbol_list (snd (search_symbols fetched now search self))) =
     with_Match (columns (symbol_list self)) /\
   map erase_Match (rows (symbol_list (snd (search_symbols fetched now search self))))
     ≡ₚ map erase_Match (rows (symbol_list self)) /\
   Sorted Match_ge (rows (symbol_list (snd (search_symbols fetched now search self))))).
Proof.
  split.
  - intros [hit Hhit]. now rewrite (search_hit _ _ _ _ _ _ _ _ Hhit).
  - intros Hmiss Hfresh _. rewrite (search_miss _ _ _ _ _ _ _ Hmiss).
    unfold refresh_if_stale. rewrite Hfresh. cbn [fst snd symbol_list].
    split; [apply rank_columns|]. split; [apply rank_rows_perm|apply rank_sorted].
Qed.

(** *** The exact ticker *)

(** [fuzz.ratio] returns 100 on equal strings and never more than 100. *)
Hypothesis ratio_refl : forall s, ratio s s = 100%Z.
Hypothesis ratio_le : forall a b, (ratio a b <= 100)%Z.

(** C6 (as amended). When the query is not cached, a row of the table in
    use has the query as its ticker up to letter case, and the five best
    ticker scores sum to at least 300 (so that the ticker ranking stands),
    the first element returned is a ticker that scores 100 against the
    query; it equals the query up to letter case whenever only such
    tickers score 100 in the table. *)
Theorem search_symbols_exact_ticker_first fetched now search self df r0 :
  searched_symbols self !! search = None ->
  fst (refresh_if_stale fetched now self) = df ->
  r0 ∈ rows df ->
  lower (Symbol r0) = lower search ->
  (300 <= head_sum (by_ticker search df))%Z ->
  exists t d rest,
    fst (search_symbols fetched now search self) = (t, d) :: rest /\
    ratio (lower search) (lower t) = 100%Z /\
    ((forall r, r ∈ rows df ->
                ratio (lower search) (lower (Symbol r)) = 100%Z ->
                lower (Symbol r) = lower search) ->
     lower t = lower search).
Proof.
  intros Hmiss Hdf Hr0 Heq Hsum.
  rewrite (search_miss _ _ _ _ _ _ _ Hmiss), Hdf. cbn [fst].
  rewrite rank_cases.
  destruct (Z.ltb_spec (head_sum (by_ticker search df)) 300); [lia|].
  destruct (by_ticker_spec search df) as (Hscore & Hsorted & Hperm & _).
  assert (Hin : erase_Match r0 ∈ map erase_Match (rows (by_ticker search df))).
  { rewrite Hperm. apply list_elem_of_fmap. eauto. }
  apply list_elem_of_fmap in Hin as (r0' & He & Hin').
  destruct (rows (by_ticker search df)) as [|r1 rest] eqn:Erows;
    [inversion Hin'|].
  assert (Hsym : Symbol r0' = Symbol r0).
  { change (Symbol (erase_Match r0') = Symbol (erase_Match r0)).
    now rewrite He. }
  rewrite Forall_forall in Hscore.
  assert (H100 : Match r0' = 100%Z).
  { rewrite (Hscore r0' Hin'), Hsym, Heq. apply ratio_refl. }
  pose proof (sorted_head_max r1 rest Hsorted r0' Hin') as Hmax.
  assert (H1 : ratio (lower search) (lower (Symbol r1)) = 100%Z).
  { pose proof (ratio_le (lower search) (lower (Symbol r1))) as Hle.
    rewrite <- (Hscore r1 ltac:(left)) in *. lia. }
  exists (Symbol r1), (Description r1),
    (map (fun x => (Symbol x, Description x)) (take 9 rest)).
  split; [|split].
  - unfold project, head10. cbn [rows]. rewrite Erows. reflexivity.
  - exact H1.
  - intros Honly.
    assert (Hr1 : erase_Match r1 ∈ map erase_Match (rows df)).
    { rewrite <- Hperm. apply list_elem_of_fmap. exists r1.
      split; [reflexivity|left]. }
    apply list_elem_of_fmap in Hr1 as (r1' & He1 & Hin1).
    assert (Hsym1 : Symbol r1 = Symbol r1').
    { change (Symbol (erase_Match r1) = Symbol (erase_Match r1')).
      now rewrite He1. }
    rewrite Hsym1 in *. now apply Honly.
Qed.

End RankingFacts.

(** ** The reference instances meet the assumptions *)

Lemma set_iter_ref_perm : forall l, set_iter_ref l ≡ₚ remove_dups l.
Proof. reflexivity. Qed.

Lemma sort_values_stable_perm : forall l, sort_values_stable l ≡ₚ l.
Proof. intros l. apply merge_sort_Permutation. Qed.

Lemma sort_values_stable_sorted : forall l, Sorted Match_ge (sort_values_stable l).
Proof. intros l. apply Sorted_merge_sort; apply _. Qed.

Lemma ratio_ref_refl : forall s, ratio_ref s s = 100%Z.
Proof. intros s. unfold ratio_ref. now rewrite String.eqb_refl. Qed.

Lemma ratio_ref_le : forall a b, (ratio_ref a b <= 100)%Z.
Proof.
  intros a b. unfold ratio_ref.
  destruct (String.eqb a b), (share_char a b); lia.
Qed.

(** ** Concrete runs *)

Module Runs.

Import Functions.
Local Open Scope string_scope.

Definition reference_columns : list string :=
  ["Symbol"; "Issue_Name"; "Primary_Listing_Mkt"; "Description"].

Definition row (symbol name : string) : Row :=
  mkRow symbol name "Q" (symbol +:+ ": " +:+ name) 0.

Local Abbreviation find_symbols := (Router.find_symbols set_iter_ref).
Local Abbreviation search_symbols :=
  (Functions.search_symbols ratio_ref partial_ratio_ref sort_values_stable).

Lemma find_symbols_stocks_before_coins_run :
  find_symbols ["TSLA"] ["btc"] "what about $$btc and $tsla today" !! 0
    = Some (Stock "tsla") /\
  find_symbols ["TSLA"] ["btc"] "what about $$btc and $tsla today" !! 1
    = Some (Coin "btc") /\
  0 < 1.
Proof.
  split; [reflexivity|]. split; [reflexivity|].
  apply (find_symbols_stocks_before_coins set_iter_ref ["TSLA"] ["btc"]
           "what about $$btc and $tsla today" 0 1 "tsla" "btc");
    reflexivity.
Defined.

Lemma find_symbols_case_duplicates_run :
  (forall l, set_iter_ref l ≡ₚ remove_dups l) /\
  find_symbols ["TSLA"] ["btc"] "$$btc $$BTC" = [Coin "btc"; Coin "btc"].
Proof.
  split; [exact set_iter_ref_perm|].
  apply (proj1 (find_symbols_case_duplicates set_iter_ref ["TSLA"] ["btc"]
                  set_iter_ref_perm)).
  apply list_elem_of_here.
Defined.

(** With [ABC] among the stocks and [abc] among the coins: both are found
    in ["$abc $$abc"], the coin alone in ["$x$abc $$abc"]. *)
Lemma find_symbols_no_cross_match_run :
  (forall l, set_iter_ref l ≡ₚ remove_dups l) /\
  find_symbols ["ABC"] ["abc"] "$abc $$abc" = [Stock "abc"; Coin "abc"] /\
  find_symbols ["ABC"] ["abc"] "$x$abc $$abc" = [Coin "abc"] /\
  Stock "abc" ∉ find_symbols ["ABC"] ["abc"] "$x$abc $$abc".
Proof.
  split; [exact set_iter_ref_perm|].
  destruct (find_symbols_no_cross_match set_iter_ref ["ABC"] ["abc"]
              set_iter_ref_perm) as (_ & _ & _ & _ & _ & H).
  destruct (H ltac:(apply list_elem_of_here) ltac:(apply list_elem_of_here))
    as (H1 & _ & _ & H2 & H3 & _).
  split; [exact H1|]. split; [exact H2|exact H3].
Defined.

(** A backend that answers with a tag and the symbol, and counts the
    calls made so far. *)
Definition quote (tag : string) : Router.backend nat :=
  fun s w => (tag +:+ s, S w).

Lemma batch_replies_order_preserving_run :
  Forall (fun o => valid_symbol o = true) [Stock "tsla"; Coin "btc"] /\
  length (fst (Router.price_reply nat (quote "stock ") (quote "coin ")
                 [Stock "tsla"; Coin "btc"] 0)) = 2 /\
  fst (Router.price_reply nat (quote "stock ") (quote "coin ")
         [Stock "tsla"; Coin "btc"] 0) !! 1 = Some "coin btc".
Proof.
  assert (HF : Forall (fun o => valid_symbol o = true) [Stock "tsla"; Coin "btc"])
    by (repeat constructor).
  split; [exact HF|].
  destruct (batch_replies_order_preserving nat
              (quote "stock ") (quote "stock ") (quote "stock ")
              (quote "stock ") (quote "stock ")
              (quote "coin ") (quote "coin ") (quote "coin ")) as (Hprice & _).
  destruct (Hprice [Stock "tsla"; Coin "btc"] 0) as [_ H].
  destruct (H HF) as [Hlen Hlook].
  split; [exact Hlen|]. exact (Hlook 1 (Coin "btc") eq_refl).
Defined.

Definition small_table : DataFrame :=
  mkDF reference_columns [row "A" "aaa"; row "B" "b"].

Definition other_table : DataFrame :=
  mkDF reference_columns [row "C" "ccc"].

Definition four_hours : Z := (4 * 3600 * 1000000)%Z.

Lemma search_symbols_idempotent_bounded_run :
  reachable ratio_ref partial_ratio_ref sort_values_stable
            (mkState small_table 0 ∅) /\
  length (fst (search_symbols (other_table, 0%Z) 0 "b"
                 (mkState small_table 0 ∅))) <= 10.
Proof.
  assert (Hr : reachable ratio_ref partial_ratio_ref sort_values_stable
                         (mkState small_table 0 ∅)) by constructor.
  split; [exact Hr|].
  exact (proj2 (search_symbols_idempotent_bounded
                  ratio_ref partial_ratio_ref sort_values_stable)
               _ Hr (other_table, 0%Z) 0%Z "b").
Defined.

(** The list was fetched at time 0 and the call is made four hours later:
    the list in use is still the one fetched at time 0. *)
Lemma search_symbols_never_refreshes_run :
  (symbol_ts (mkState small_table 0 ∅) <= four_hours)%Z /\
  (four_hours - symbol_ts (mkState small_table 0 ∅) > TTL)%Z /\
  refresh_if_stale (other_table, four_hours) four_hours
                   (mkState small_table 0 ∅) = (small_table, 0%Z).
Proof.
  split; [discriminate|]. split; [reflexivity|].
  exact (proj1 (search_symbols_never_refreshes
                  ratio_ref partial_ratio_ref sort_values_stable
                  (other_table, four_hours) four_hours "b"
                  (mkState small_table 0 ∅) ltac:(discriminate))).
Defined.

Definition apple_table : DataFrame :=
  mkDF reference_columns [row "AAPL" "Apple"; row "XYZ" "zzz"].

(** The ticker scores of the two rows against ["apple"] are 50 and 0: the
    table is ranked by issue name. *)
Lemma search_symbols_two_tier_run :
  (forall l, sort_values_stable l ≡ₚ l) /\
  (forall l, Sorted Match_ge (sort_values_stable l)) /\
  rows apple_table <> [] /\
  (foldr Z.add 0
     (map (fun r => ratio_ref (lower "apple") (lower (Symbol r)))
        (take 5 (rows (by_ticker ratio_ref sort_values_stable
                         "apple" apple_table)))) < 300)%Z /\
  rank ratio_ref partial_ratio_ref sort_values_stable "apple" apple_table =
  by_name ratio_ref partial_ratio_ref sort_values_stable "apple" apple_table.
Proof.
  assert (Hrows : rows apple_table <> []) by discriminate.
  split; [exact sort_values_stable_perm|].
  split; [exact sort_values_stable_sorted|].
  split; [exact Hrows|].
  assert (Hlt : (foldr Z.add 0
                   (map (fun r => ratio_ref (lower "apple") (lower (Symbol r)))
                      (take 5 (rows (by_ticker ratio_ref sort_values_stable
                                       "apple" apple_table)))) < 300)%Z)
    by reflexivity.
  split; [exact Hlt|].
  destruct (search_symbols_two_tier ratio_ref partial_ratio_ref
              sort_values_stable sort_values_stable_perm
              sort_values_stable_sorted "apple" apple_table Hrows)
    as (_ & H & _).
  exact (proj1 (H Hlt)).
Defined.

(** C2, refuted as stated: a search for ["b"] that misses the cache and
    does not refresh leaves the table with one more column and its two
    rows exchanged. (The two scores differ, so the order does not depend
    on how the sort breaks ties.) *)
Lemma search_symbols_mutates_table :
  stale (symbol_ts (mkState small_table 0 ∅)) 0 = false /\
  symbol_list (mkState small_table 0 ∅) =
    mkDF ["Symbol"; "Issue_Name"; "Primary_Listing_Mkt"; "Description"]
         [mkRow "A" "aaa" "Q" "A: aaa" 0; mkRow "B" "b" "Q" "B: b" 0] /\
  symbol_list (snd (search_symbols (other_table, 0%Z) 0 "b"
                      (mkState small_table 0 ∅))) =
    mkDF ["Symbol"; "Issue_Name"; "Primary_Listing_Mkt"; "Description"; "Match"]
         [mkRow "B" "b" "Q" "B: b" 100; mkRow "A" "aaa" "Q" "A: aaa" 0] /\
  symbol_list (snd (search_symbols (other_table, 0%Z) 0 "b"
                      (mkState small_table 0 ∅)))
    <> symbol_list (mkState small_table 0 ∅).
Proof.
  split; [reflexivity|]. split; [reflexivity|].
  split; [vm_compute; reflexivity|]. vm_compute. discriminate.
Qed.

Lemma search_symbols_table_effect_run :
  (forall l, sort_values_stable l ≡ₚ l) /\
  (forall l, Sorted Match_ge (sort_values_stable l)) /\
  searched_symbols (mkState small_table 0 ∅) !! "b" = None /\
  stale (symbol_ts (mkState small_table 0 ∅)) 0 = false /\
  rows (symbol_list (mkState small_table 0 ∅)) <> [] /\
  columns (symbol_list (snd (search_symbols (other_table, 0%Z) 0 "b"
                               (mkState small_table 0 ∅)))) =
    with_Match (columns small_table).
Proof.
  assert (Hrows : rows (symbol_list (mkState small_table 0 ∅)) <> [])
    by discriminate.
  split; [exact sort_values_stable_perm|].
  split; [exact sort_values_stable_sorted|].
  split; [reflexivity|]. split; [reflexivity|]. split; [exact Hrows|].
  destruct (search_symbols_table_effect ratio_ref partial_ratio_ref
              sort_values_stable sort_values_stable_perm
              sort_values_stable_sorted (other_table, 0%Z) 0%Z "b"
              (mkState small_table 0 ∅)) as [_ H].
  exact (proj1 (H eq_refl eq_refl Hrows)).
Defined.

Definition aapl_table : DataFrame :=
  mkDF reference_columns [row "AAPL" "zzz"; row "XYZ" "AAPL"].

(** C6, refuted as stated: the table has the ticker ["AAPL"], yet a search
    for ["AAPL"] returns ["XYZ"] first. The ticker scores are 100 and 0,
    below the threshold, and the issue name of ["XYZ"] is the query. *)
Lemma exact_ticker_not_first :
  row "AAPL" "zzz" ∈ rows aapl_table /\
  lower (Symbol (row "AAPL" "zzz")) = lower "AAPL" /\
  searched_symbols (mkState aapl_table 0 ∅) !! "AAPL" = None /\
  fst (search_symbols (other_table, 0%Z) 0 "AAPL" (mkState aapl_table 0 ∅)) =
    [("XYZ", "XYZ: AAPL"); ("AAPL", "AAPL: zzz")] /\
  lower "XYZ" <> lower "AAPL".
Proof.
  split; [apply list_elem_of_here|]. split; [reflexivity|].
  split; [reflexivity|]. split; [vm_compute; reflexivity|].
  vm_compute. discriminate.
Qed.

(** The same run with any scorers that return, on the four pairs of
    strings compared, what the library returns there (100 on equal strings,
    0 on strings without a common character), and any sort that returns a
    descending rearrangement. *)
Section AnyScorer.

Variables ratio partial_ratio : string -> string -> Z.
Variable sort_values : list Row -> list Row.
Hypothesis sort_values_perm : forall l, sort_values l ≡ₚ l.
Hypothesis sort_values_sorted : forall l, Sorted Match_ge (sort_values l).
Hypothesis ratio_equal : ratio "aapl" "aapl" = 100%Z.
Hypothesis ratio_disjoint : ratio "aapl" "xyz" = 0%Z.
Hypothesis partial_ratio_equal : partial_ratio "aapl" "aapl" = 100%Z.
Hypothesis partial_ratio_disjoint : partial_ratio "aapl" "zzz" = 0%Z.

Lemma sort_values_pair x y :
  (Match y < Match x)%Z ->
  sort_values [x; y] = [x; y] /\ sort_values [y; x] = [x; y].
Proof.
  intros Hlt.
  assert (Hno : ~ Sorted Match_ge [y; x]).
  { intros HS. apply Sorted_inv in HS as [_ HH]. apply HdRel_inv in HH.
    unfold Match_ge in HH. lia. }
  split.
  - pose proof (sort_values_perm [x; y]) as Hp. symmetry in Hp.
    apply Permutation_length_2_inv in Hp as [E|E]; [exact E|].
    pose proof (sort_values_sorted [x; y]) as HS. rewrite E in HS.
    contradiction.
  - pose proof (sort_values_perm [y; x]) as Hp. symmetry in Hp.
    apply Permutation_length_2_inv in Hp as [E|E]; [|exact E].
    pose proof (sort_values_sorted [y; x]) as HS. rewrite E in HS.
    contradiction.
Qed.

Lemma exact_ticker_not_first_any_scorer :
  fst (Functions.search_symbols ratio partial_ratio sort_values
         (other_table, 0%Z) 0 "AAPL" (mkState aapl_table 0 ∅)) =
  [("XYZ", "XYZ: AAPL"); ("AAPL", "AAPL: zzz")].
Proof.
  rewrite search_miss by reflexivity.
  replace (fst (refresh_if_stale (other_table, 0%Z) 0 (mkState aapl_table 0 ∅)))
    with aapl_table by reflexivity.
  cbn [fst].
  assert (E1 : rows (by_ticker ratio sort_values "AAPL" aapl_table) =
               [mkRow "AAPL" "zzz" "Q" "AAPL: zzz" 100;
                mkRow "XYZ" "AAPL" "Q" "XYZ: AAPL" 0]).
  { unfold by_ticker, Functions.sort_df, assign_Match, Functions.ticker_score.
    cbn [rows aapl_table map]. unfold row, set_Match. cbn [Symbol].
    replace (lower "AAPL") with "aapl" by reflexivity.
    replace (lower "XYZ") with "xyz" by reflexivity.
    rewrite ratio_equal, ratio_disjoint.
    apply (sort_values_pair (mkRow "AAPL" "zzz" "Q" ("AAPL" +:+ ": " +:+ "zzz") 100)
                            (mkRow "XYZ" "AAPL" "Q" ("XYZ" +:+ ": " +:+ "AAPL") 0)).
    reflexivity. }
  assert (E2 : rows (by_name ratio partial_ratio sort_values "AAPL" aapl_table) =
               [mkRow "XYZ" "AAPL" "Q" "XYZ: AAPL" 100;
                mkRow "AAPL" "zzz" "Q" "AAPL: zzz" 0]).
  { unfold by_name, Functions.sort_df, Functions.name_score.
    cbn [rows]. unfold assign_Match. cbn [rows]. rewrite E1. cbn [map]. unfold set_Match. cbn [Issue_Name].
    replace (lower "AAPL") with "aapl" by reflexivity.
    replace (lower "zzz") with "zzz" by reflexivity.
    rewrite partial_ratio_equal, partial_ratio_disjoint.
    apply (sort_values_pair (mkRow "XYZ" "AAPL" "Q" "XYZ: AAPL" 100)
                            (mkRow "AAPL" "zzz" "Q" "AAPL: zzz" 0)).
    reflexivity. }
  assert (Hlt : (head_sum (by_ticker ratio sort_values "AAPL" aapl_table)
                 <? 300)%Z = true)
    by (unfold head_sum; rewrite E1; reflexivity).
  rewrite (rank_cases ratio partial_ratio sort_values), Hlt.
  unfold Functions.project, head10. cbn [rows]. rewrite E2. reflexivity.
Qed.

End AnyScorer.

Definition busy_table : DataFrame :=
  mkDF reference_columns
       [row "XYZ" "Xyz Corp"; row "AAP" "Advance Auto Parts";
        row "AAPL" "Apple Inc"; row "APLE" "Apple Hospitality";
        row "PAL" "Proficient Auto"; row "LAP" "Lap Corp"].

Lemma search_symbols_exact_ticker_first_run :
  (forall l, sort_values_stable l ≡ₚ l) /\
  (forall l, Sorted Match_ge (sort_values_stable l)) /\
  (forall s, ratio_ref s s = 100%Z) /\
  (forall a b, (ratio_ref a b <= 100)%Z) /\
  searched_symbols (mkState busy_table 0 ∅) !! "aapl" = None /\
  fst (refresh_if_stale (other_table, 0%Z) 0 (mkState busy_table 0 ∅)) = busy_table /\
  row "AAPL" "Apple Inc" ∈ rows busy_table /\
  lower (Symbol (row "AAPL" "Apple Inc")) = lower "aapl" /\
  (300 <= head_sum (by_ticker ratio_ref sort_values_stable "aapl" busy_table))%Z /\
  exists t d rest,
    fst (search_symbols (other_table, 0%Z) 0 "aapl" (mkState busy_table 0 ∅))
      = (t, d) :: rest /\
    ratio_ref (lower "aapl") (lower t) = 100%Z /\
    ((forall r, r ∈ rows busy_table ->
                ratio_ref (lower "aapl") (lower (Symbol r)) = 100%Z ->
                lower (Symbol r) = lower "aapl") ->
     lower t = lower "aapl").
Proof.
  split; [exact sort_values_stable_perm|].
  split; [exact sort_values_stable_sorted|].
  split; [exact ratio_ref_refl|]. split; [exact ratio_ref_le|].
  split; [reflexivity|]. split; [reflexivity|].
  assert (Hin : row "AAPL" "Apple Inc" ∈ rows busy_table)
    by (do 2 apply list_elem_of_further; apply list_elem_of_here).
  split; [exact Hin|]. split; [reflexivity|].
  assert (Hsum : (300 <= head_sum (by_ticker ratio_ref sort_values_stable
                                     "aapl" busy_table))%Z) by discriminate.
  split; [exact Hsum|].
  exact (search_symbols_exact_ticker_first ratio_ref partial_ratio_ref
           sort_values_stable sort_values_stable_perm sort_values_stable_sorted
           ratio_ref_refl ratio_ref_le (other_table, 0%Z) 0%Z "aapl"
           (mkState busy_table 0 ∅) busy_table (row "AAPL" "Apple Inc")
           eq_refl eq_refl Hin eq_refl Hsum).
Defined.

End Runs.

(** * Further properties of the code *)

(** ** What the patterns capture *)

Lemma run_le_hi p hi s : run p hi s <= hi.
Proof.
  revert s; induction hi as [|hi IH]; intros [|c s]; simpl; try lia.
  destruct (p c); [specialize (IH s)|]; lia.
Qed.

Lemma run_maximal p hi s :
  run p hi s = hi \/ forall c, s !! run p hi s = Some c -> p c = false.
Proof.
  revert s; induction hi as [|hi IH]; intros [|c s]; simpl.
  - left; reflexivity.
  - left; reflexivity.
  - right. intros c H. discriminate.
  - destruct (p c) eqn:E.
    + destruct (IH s) as [->|H]; [left; reflexivity|right; exact H].
    + right. intros c' [= <-]. exact E.
Qed.

(** The token read by a repetition of letters at position [q]. *)
Lemma run_token hi (text s : list ascii) q :
  drop q text = s ->
  1 <= run is_letter hi s ->
  occurs_at text q (take (run is_letter hi s) s) /\
  Forall (fun c => is_letter c = true) (take (run is_letter hi s) s) /\
  1 <= length (take (run is_letter hi s) s) <= hi /\
  (length (take (run is_letter hi s) s) = hi \/
   forall c, text !! (q + length (take (run is_letter hi s) s)) = Some c ->
             is_letter c = false).
Proof.
  intros Hs Hn.
  pose proof (run_le_length is_letter hi s) as Hl.
  pose proof (run_le_hi is_letter hi s) as Hh.
  assert (Hlen : length (take (run is_letter hi s) s) = run is_letter hi s)
    by (rewrite length_take; lia).
  rewrite Hlen. split; [now apply occurs_at_take_run|].
  split; [apply run_Forall|]. split; [lia|].
  destruct (run_maximal is_letter hi s) as [H|H]; [left; exact H|right].
  intros c Hc. apply H. subst s. rewrite lookup_drop. exact Hc.
Qed.

Lemma symbol_match_mention text pos len p g :
  symbol_match pos (drop pos text) = Some (len, (p, g)) ->
  dollar_mention text p g.
Proof.
  unfold symbol_match.
  destruct (drop pos text) as [|c s1] eqn:E; [discriminate|].
  apply drop_cons_inv in E as [Hc E1].
  pose proof (run_token 4 text s1 (S pos) E1) as Ht.
  set (n1 := run is_letter 4 s1) in *.
  destruct (is_dollar c) eqn:Bc; [|discriminate]. cbn [andb].
  destruct (Nat.leb_spec 1 n1) as [Hn|]; [|discriminate].
  intros [= <- <- <-]. apply is_dollar_true in Bc; subst c.
  destruct (Ht Hn) as (H1 & H2 & H3 & H4).
  replace (pos + 1) with (S pos) by lia.
  split; [lia|]. split; [simpl; now rewrite Nat.sub_0_r|]. auto.
Qed.

Lemma crypto_match_mention text pos len p g :
  crypto_match pos (drop pos text) = Some (len, (p, g)) ->
  coin_mention text p g.
Proof.
  intros H. pose proof (crypto_match_sound _ _ _ _ _ H) as [Hd _].
  revert H. unfold crypto_match.
  destruct (drop pos text) as [|c s1] eqn:E; [discriminate|].
  apply drop_cons_inv in E as [Hc E1].
  destruct s1 as [|d s2]; [discriminate|].
  apply drop_cons_inv in E1 as [_ E2].
  pose proof (run_token 9 text s2 (S (S pos)) E2) as Ht.
  set (n2 := run is_letter 9 s2) in *.
  destruct (is_dollar c && is_dollar d); [|discriminate]. cbn [andb].
  destruct (Nat.leb_spec 1 n2) as [Hn|]; [|discriminate].
  intros [= <- <- <-].
  destruct (Ht Hn) as (H1 & H2 & H3 & H4).
  replace (pos + 2) with (S (S pos)) in * by lia.
  split; [exact Hd|]. auto.
Qed.

Lemma stock_match_mention text pos len p g :
  stock_match pos (drop pos text) = Some (len, (p, g)) ->
  single_dollar_before text p /\ dollar_mention text p g.
Proof.
  intros H. pose proof (stock_match_sound _ _ _ _ _ H) as [Hd _].
  split; [exact Hd|]. destruct Hd as (Hp & Hdollar & _).
  revert H. unfold stock_match.
  destruct (drop pos text) as [|c s1] eqn:E; [discriminate|].
  apply drop_cons_inv in E as [Hc E1].
  pose proof (run_token 4 text s1 (S pos) E1) as Ht1.
  set (n1 := run is_letter 4 s1) in *.
  destruct ((pos =? 0) && is_dollar c) eqn:B; cbn [andb].
  - destruct (Nat.leb_spec 1 n1) as [Hn|].
    + intros [= <- <- <-]. destruct (Ht1 Hn) as (H1 & H2 & H3 & H4).
      replace (pos + 1) with (S pos) in * by lia.
      split; [lia|]. split; [exact Hdollar|]. auto.
    + destruct s1 as [|d s2]; [discriminate|].
      apply andb_prop in B as [_ B]. unfold not_dollar. rewrite B.
      discriminate.
  - destruct s1 as [|d s2]; [discriminate|].
    apply drop_cons_inv in E1 as [_ E2].
    pose proof (run_token 4 text s2 (S (S pos)) E2) as Ht2.
    set (n2 := run is_letter 4 s2) in *.
    destruct (not_dollar c && is_dollar d); [|discriminate]. cbn [andb].
    destruct (Nat.leb_spec 1 n2) as [Hn|]; [|discriminate].
    intros [= <- <- <-]. destruct (Ht2 Hn) as (H1 & H2 & H3 & H4).
    replace (pos + 2) with (S (S pos)) in * by lia.
    split; [lia|]. split; [exact Hdollar|]. auto.
Qed.

Lemma finditer_SYMBOL_mention text p g :
  (p, g) ∈ finditer SYMBOL_REGEX 0 0 text -> dollar_mention text p g.
Proof.
  intros H.
  destruct (finditer_elem SYMBOL_REGEX text (p, g) text 0 0 eq_refl H)
    as (q & len & _ & Hm).
  rewrite match_at_SYMBOL in Hm. eapply symbol_match_mention; eassumption.
Qed.

Lemma finditer_CRYPTO_mention text p g :
  (p, g) ∈ finditer CRYPTO_REGEX 0 0 text -> coin_mention text p g.
Proof.
  intros H.
  destruct (finditer_elem CRYPTO_REGEX text (p, g) text 0 0 eq_refl H)
    as (q & len & _ & Hm).
  rewrite match_at_CRYPTO in Hm. eapply crypto_match_mention; eassumption.
Qed.

Lemma finditer_STOCK_mention text p g :
  (p, g) ∈ finditer STOCK_REGEX 0 0 text ->
  single_dollar_before text p /\ dollar_mention text p g.
Proof.
  intros H.
  destruct (finditer_elem STOCK_REGEX text (p, g) text 0 0 eq_refl H)
    as (q & len & _ & Hm).
  rewrite match_at_STOCK in Hm. eapply stock_match_mention; eassumption.
Qed.

(** ** More on [Router.find_symbols] and [Symbol.find_symbols] *)

Lemma lower_char_of_letter c :
  is_letter c = true -> is_lower_letter (lower_char c) = true.
Proof.
  unfold is_letter, lower_char. intros H.
  destruct (is_upper_letter c) eqn:U.
  - unfold is_upper_letter in U. apply andb_prop in U as [U1 U2].
    apply Nat.leb_le in U1, U2. unfold is_lower_letter.
    rewrite nat_ascii_embedding by lia.
    apply andb_true_intro. split; apply Nat.leb_le; lia.
  - rewrite orb_false_r in H. exact H.
Qed.

Lemma lower_letters s :
  Forall (fun c => is_letter c = true) (list_ascii_of_string s) ->
  Forall (fun c => is_lower_letter c = true) (list_ascii_of_string (lower s)).
Proof.
  unfold lower. rewrite list_ascii_of_string_of_list. intros H.
  induction H as [|c l Hc _ IH]; simpl; constructor; auto.
  now apply lower_char_of_letter.
Qed.

Lemma lower_length s :
  length (list_ascii_of_string (lower s)) = length (list_ascii_of_string s).
Proof. unfold lower. now rewrite list_ascii_of_string_of_list, length_map. Qed.

Lemma no_elements_nil {A} (l : list A) : (forall x, x ∉ l) -> l = [].
Proof.
  destruct l as [|x l]; [reflexivity|]. intros H.
  exfalso. apply (H x). left.
Qed.

Section FindSymbolsMore.

Variable set_iter : list string -> list string.
Variable stock_symbol_list crypto_symbol_list : list string.
Hypothesis set_iter_perm : forall l, set_iter l ≡ₚ remove_dups l.

Local Abbreviation find_symbols :=
  (Router.find_symbols set_iter stock_symbol_list crypto_symbol_list).

(** Whatever the text, [Router.find_symbols] returns only [Stock] and
    [Coin] objects; a [Stock] carries one to four letters whose upper-case
    form is in the stock list, a [Coin] one to nine lower-case letters that
    are in the coin list. *)
Theorem find_symbols_validated text o :
  o ∈ find_symbols text ->
  match o with
  | Stock s =>
      upper s ∈ stock_symbol_list /\
      Forall (fun c => is_letter c = true) (list_ascii_of_string s) /\
      1 <= length (list_ascii_of_string s) <= 4
  | Coin c =>
      c ∈ crypto_symbol_list /\
      Forall (fun ch => is_lower_letter ch = true) (list_ascii_of_string c) /\
      1 <= length (list_ascii_of_string c) <= 9
  | Other _ => False
  end.
Proof.
  intros Ho. destruct o as [s|c|r].
  - apply find_symbols_Stock in Ho as [Hs Hk]. split; [exact Hk|].
    apply (elem_of_set_iter set_iter set_iter_perm), findall_elem in Hs as [p Hs].
    apply finditer_STOCK_mention in Hs as [_ (_ & _ & _ & HF & Hlen & _)].
    auto.
  - apply find_symbols_Coin in Ho as (tok & -> & Hs & Hk). split; [exact Hk|].
    apply (elem_of_set_iter set_iter set_iter_perm), findall_elem in Hs as [p Hs].
    apply finditer_CRYPTO_mention in Hs as (_ & _ & HF & Hlen & _).
    split; [now apply lower_letters|]. now rewrite lower_length.
  - rewrite find_symbols_app in Ho. apply elem_of_app in Ho as [Ho|Ho];
      apply list_elem_of_fmap in Ho as (? & [=] & _).
Qed.

(** A [Coin] is returned exactly for the coin mentions of the text whose
    lower-case form is in the coin list: none is missed, none is made up. *)
Theorem find_symbols_coin_iff text c :
  Coin c ∈ find_symbols text <->
  c ∈ crypto_symbol_list /\ exists tok, lower tok = c /\ mentions_coin text tok.
Proof.
  split.
  - intros H. apply find_symbols_Coin in H as (tok & -> & Hs & Hk).
    split; [exact Hk|]. exists tok. split; [reflexivity|].
    apply (elem_of_set_iter set_iter set_iter_perm), findall_elem in Hs as [p Hs].
    exists p. now apply finditer_CRYPTO_mention.
  - intros (Hk & tok & <- & p & Hm).
    apply (find_symbols_Coin_intro set_iter stock_symbol_list
             crypto_symbol_list set_iter_perm); [|exact Hk].
    apply coin_mention_found, (findall_intro CRYPTO_REGEX) in Hm.
    now rewrite string_of_list_ascii_of_string in Hm.
Qed.

(** A [Stock] is returned only for a token of the text that follows a
    single dollar sign, is one to four letters long, is not cut short of
    four letters, and is in the stock list in upper case; and it is returned
    for every such token whose dollar sign does not follow a letter. *)
Theorem find_symbols_stock_bounds text s :
  (Stock s ∈ find_symbols text ->
   upper s ∈ stock_symbol_list /\
   exists p, single_dollar_before (list_ascii_of_string text) p /\
             dollar_mention (list_ascii_of_string text) p
                            (list_ascii_of_string s)) /\
  (upper s ∈ stock_symbol_list -> mentions_stock text s ->
   Stock s ∈ find_symbols text).
Proof.
  split.
  - intros H. apply find_symbols_Stock in H as [Hs Hk]. split; [exact Hk|].
    apply (elem_of_set_iter set_iter set_iter_perm), findall_elem in Hs as [p Hs].
    exists p. now apply finditer_STOCK_mention.
  - intros Hk [p Hm].
    apply (find_symbols_Stock_intro set_iter stock_symbol_list
             crypto_symbol_list set_iter_perm); [|exact Hk].
    apply stock_mention_found, (findall_intro STOCK_REGEX) in Hm.
    now rewrite string_of_list_ascii_of_string in Hm.
Qed.

(** [Symbol.find_symbols] returns each token once and returns exactly the
    tokens of one to four letters that follow a dollar sign in the text
    (cut after four letters), whatever stands before the dollar sign. *)
Theorem functions_find_symbols_iff text :
  NoDup (Functions.find_symbols set_iter text) /\
  forall tok,
    tok ∈ Functions.find_symbols set_iter text <->
    exists p, dollar_mention (list_ascii_of_string text) p
                             (list_ascii_of_string tok).
Proof.
  unfold Functions.find_symbols. split.
  - apply (NoDup_set_iter set_iter set_iter_perm).
  - intros tok. rewrite (elem_of_set_iter set_iter set_iter_perm). split.
    + intros H. apply findall_elem in H as [p H]. exists p.
      now apply finditer_SYMBOL_mention.
    + intros [p H].
      apply dollar_mention_found, (findall_intro SYMBOL_REGEX) in H.
      now rewrite string_of_list_ascii_of_string in H.
Qed.

(** A text without a dollar sign, the empty text among them, yields no
    symbol, in the router and in [functions.py] alike. *)
Theorem find_symbols_without_dollar text :
  "$"%char ∉ list_ascii_of_string text ->
  find_symbols text = [] /\ Functions.find_symbols set_iter text = [].
Proof.
  intros Hno.
  assert (Hstock : findall STOCK_REGEX text = []).
  { apply no_elements_nil. intros tok H. apply findall_elem in H as [p H].
    apply finditer_STOCK_single in H as [(_ & Hd & _) _].
    apply Hno. eapply list_elem_of_lookup_2. exact Hd. }
  assert (Hcoin : findall CRYPTO_REGEX text = []).
  { apply no_elements_nil. intros tok H. apply findall_elem in H as [p H].
    apply finditer_CRYPTO_double in H as [(_ & Hd & _) _].
    apply Hno. eapply list_elem_of_lookup_2. exact Hd. }
  assert (Hsym : findall SYMBOL_REGEX text = []).
  { apply no_elements_nil. intros tok H. apply findall_elem in H as [p H].
    apply finditer_SYMBOL_mention in H as (_ & Hd & _).
    apply Hno. eapply list_elem_of_lookup_2. exact Hd. }
  split.
  - rewrite find_symbols_app, Hstock, Hcoin.
    rewrite (set_iter_nil set_iter set_iter_perm). reflexivity.
  - unfold Functions.find_symbols. rewrite Hsym.
    apply (set_iter_nil set_iter set_iter_perm).
Qed.

End FindSymbolsMore.

(** ** More on the operations of the router *)

Section RouterMore.

Variable World : Type.
Local Abbreviation backend := (Router.backend World).

Section LoopMore.

Variables on_stock on_coin : backend.
Local Abbreviation loop := (Router.reply_loop World on_stock on_coin).
Local Abbreviation step := (Router.reply_step World on_stock on_coin).

Lemma reply_fold_from acc symbols :
  forall w,
    foldl step (acc, w) symbols =
    (acc ++ fst (loop symbols w), snd (loop symbols w)).
Proof.
  unfold Router.reply_loop. revert acc.
  induction symbols as [|o symbols IH]; intros acc w; simpl.
  - now rewrite app_nil_r.
  - destruct o as [s|s|r]; simpl.
    + destruct (on_stock s w) as [r w'].
      rewrite (IH (acc ++ [r]) w'), (IH [r] w'). simpl.
      now rewrite <- app_assoc.
    + destruct (on_coin s w) as [r w'].
      rewrite (IH (acc ++ [r]) w'), (IH [r] w'). simpl.
      now rewrite <- app_assoc.
    + apply IH.
Qed.

Lemma reply_loop_app l1 l2 w :
  loop (l1 ++ l2) w =
  (fst (loop l1 w) ++ fst (loop l2 (snd (loop l1 w))),
   snd (loop l2 (snd (loop l1 w)))).
Proof.
  unfold Router.reply_loop at 1. rewrite foldl_app.
  fold (loop l1 w). destruct (loop l1 w) as [r1 w1]. apply reply_fold_from.
Qed.

Lemma reply_loop_cons o l w :
  loop (o :: l) w =
  (fst (loop [o] w) ++ fst (loop l (snd (loop [o] w))),
   snd (loop l (snd (loop [o] w)))).
Proof. apply (reply_loop_app [o] l w). Qed.

Lemma reply_loop_filter_valid l :
  forall w, loop l w = loop (filter (fun o => valid_symbol o = true) l) w.
Proof.
  induction l as [|o l IH]; intros w; [reflexivity|].
  rewrite reply_loop_cons. destruct o as [s|s|r].
  - rewrite filter_cons_True by reflexivity.
    rewrite (reply_loop_cons (Stock s) (filter _ l)). now rewrite IH.
  - rewrite filter_cons_True by reflexivity.
    rewrite (reply_loop_cons (Coin s) (filter _ l)). now rewrite IH.
  - rewrite filter_cons_False by discriminate.
    rewrite <- IH. simpl. now destruct (loop l w).
Qed.

End LoopMore.

(** Splitting the list of symbols splits the work: the replies for
    [l1 ++ l2] are the replies for [l1] followed by the replies for [l2]
    obtained in the world that the calls for [l1] leave. *)
Definition splits_over_append
           (op : list PyObj -> World -> list string * World) : Prop :=
  forall l1 l2 w,
    op (l1 ++ l2) w =
    (fst (op l1 w) ++ fst (op l2 (snd (op l1 w))),
     snd (op l2 (snd (op l1 w)))).

(** Objects that are neither [Stock] nor [Coin] count for nothing: the
    replies and the calls made are those for the list without them. *)
Definition ignores_other_objects
           (op : list PyObj -> World -> list string * World) : Prop :=
  forall l w, op l w = op (filter (fun o => valid_symbol o = true) l) w.

Variables stock_price_reply stock_dividend_reply stock_news_reply
          stock_info_reply stock_stat_reply : backend.
Variables crypto_price_reply crypto_info_reply crypto_stat_reply : backend.

Theorem batch_replies_split_over_append :
  splits_over_append
    (Router.price_reply World stock_price_reply crypto_price_reply) /\
  splits_over_append (Router.dividend_reply World stock_dividend_reply) /\
  splits_over_append (Router.news_reply World stock_news_reply) /\
  splits_over_append
    (Router.info_reply World stock_info_reply crypto_info_reply) /\
  splits_over_append
    (Router.stat_reply World stock_stat_reply crypto_stat_reply).
Proof. repeat apply conj; intros l1 l2 w; apply reply_loop_app. Qed.

Variable Frame : Type.
Variable empty_frame : Frame.
Variables stock_intra_reply stock_chart_reply
          crypto_intra_reply crypto_chart_reply : Router.frame_backend World Frame.

Theorem router_ignores_other_objects :
  ignores_other_objects
    (Router.price_reply World stock_price_reply crypto_price_reply) /\
  ignores_other_objects (Router.dividend_reply World stock_dividend_reply) /\
  ignores_other_objects (Router.news_reply World stock_news_reply) /\
  ignores_other_objects
    (Router.info_reply World stock_info_reply crypto_info_reply) /\
  ignores_other_objects
    (Router.stat_reply World stock_stat_reply crypto_stat_reply) /\
  forall o w,
    valid_symbol o = false ->
    Router.intra_reply World Frame empty_frame
      stock_intra_reply crypto_intra_reply o w = (empty_frame, w) /\
    Router.chart_reply World Frame empty_frame
      stock_chart_reply crypto_chart_reply o w = (empty_frame, w).
Proof.
  repeat apply conj; try (intros l w; apply reply_loop_filter_valid).
  intros o w Ho. destruct o as [s|s|r]; try discriminate Ho.
  split; reflexivity.
Qed.

(** The world after a batch whose coin replies are fixed texts. *)
Lemma fixed_coin_world on_stock msg l :
  forall w,
    snd (Router.reply_loop World on_stock (Router.fixed_reply World msg) l w) =
    snd (Router.reply_loop World on_stock (Router.fixed_reply World msg)
           (filter (fun o => is_Stock o = true) l) w).
Proof.
  induction l as [|o l IH]; intros w; [reflexivity|].
  rewrite reply_loop_cons. destruct o as [s|s|r].
  - rewrite filter_cons_True by reflexivity.
    rewrite (reply_loop_cons _ _ (Stock s) (filter _ l)). simpl. apply IH.
  - rewrite filter_cons_False by discriminate. simpl. apply IH.
  - rewrite filter_cons_False by discriminate. simpl. apply IH.
Qed.

Lemma fixed_coin_replies on_stock msg l :
  forall w,
    Forall (fun o => is_Coin o = true) l ->
    Router.reply_loop World on_stock (Router.fixed_reply World msg) l w =
    (replicate (length l) msg, w).
Proof.
  induction l as [|o l IH]; intros w HF; [reflexivity|].
  apply Forall_cons in HF as [Ho HF].
  rewrite reply_loop_cons. destruct o as [s|s|r]; try discriminate Ho.
  simpl. now rewrite (IH w HF).
Qed.

(** Dividends and news make no backend call for a coin: the world after
    the batch is the one its stocks alone lead to, and a list of coins is
    answered by as many copies of the fixed text, the world untouched. *)
Theorem coins_cost_no_call l w :
  snd (Router.dividend_reply World stock_dividend_reply l w) =
    snd (Router.dividend_reply World stock_dividend_reply
           (filter (fun o => is_Stock o = true) l) w) /\
  snd (Router.news_reply World stock_news_reply l w) =
    snd (Router.news_reply World stock_news_reply
           (filter (fun o => is_Stock o = true) l) w) /\
  (Forall (fun o => is_Coin o = true) l ->
   Router.dividend_reply World stock_dividend_reply l w =
     (replicate (length l) "Cryptocurrencies do no have Dividends."%string, w) /\
   Router.news_reply World stock_news_reply l w =
     (replicate (length l)
        "News is not yet supported for cryptocurrencies."%string, w)).
Proof.
  split; [apply fixed_coin_world|]. split; [apply fixed_coin_world|].
  intros HF. split; now apply fixed_coin_replies.
Qed.

End RouterMore.

(** ** More on [Symbol.search_symbols] *)

Lemma sum_Match_bound (l : list Row) :
  Forall (fun r => (Match r <= 100)%Z) l ->
  (foldr Z.add 0 (map Match l) <= 100 * Z.of_nat (length l))%Z.
Proof.
  induction 1 as [|r l Hr _ IH]; [simpl; lia|].
  cbn [map foldr length]. rewrite Nat2Z.inj_succ. lia.
Qed.

Lemma erase_Match_fields r r' :
  erase_Match r = erase_Match r' ->
  Symbol r = Symbol r' /\ Issue_Name r = Issue_Name r' /\
  Description r = Description r'.
Proof.
  intros H.
  change (Symbol (erase_Match r) = Symbol (erase_Match r') /\
          Issue_Name (erase_Match r) = Issue_Name (erase_Match r') /\
          Description (erase_Match r) = Description (erase_Match r')).
  now rewrite H.
Qed.

Section SearchMore.

Import Functions.

Variables ratio partial_ratio : string -> string -> Z.
Variable sort_values : list Row -> list Row.

Local Abbreviation rank := (Functions.rank ratio partial_ratio sort_values).
Local Abbreviation search_symbols :=
  (Functions.search_symbols ratio partial_ratio sort_values).

(** *** The cache *)

Lemma search_keeps_entries fetched now q self k v :
  searched_symbols self !! k = Some v ->
  searched_symbols (snd (search_symbols fetched now q self)) !! k = Some v.
Proof.
  intros Hk. destruct (searched_symbols self !! q) as [hit|] eqn:E.
  - now rewrite (search_hit _ _ _ _ _ _ _ _ E).
  - rewrite (search_miss _ _ _ _ _ _ _ E). cbn [snd searched_symbols].
    rewrite lookup_insert_ne; [exact Hk|]. intros <-. congruence.
Qed.

(** A call changes the cache at the query only, and never removes or
    replaces an entry: what was cached stays cached. When the query was
    cached, or the table in use has a row, the list returned is cached
    under the query. *)
Theorem search_cache_frame fetched now q self :
  (forall q', q' <> q ->
     searched_symbols (snd (search_symbols fetched now q self)) !! q' =
     searched_symbols self !! q') /\
  (forall k v, searched_symbols self !! k = Some v ->
     searched_symbols (snd (search_symbols fetched now q self)) !! k = Some v) /\
  (is_Some (searched_symbols self !! q) \/
   rows (fst (refresh_if_stale fetched now self)) <> [] ->
   searched_symbols (snd (search_symbols fetched now q self)) !! q =
     Some (fst (search_symbols fetched now q self))).
Proof.
  split; [|split].
  - intros q' Hne. destruct (searched_symbols self !! q) as [hit|] eqn:E.
    + now rewrite (search_hit _ _ _ _ _ _ _ _ E).
    + rewrite (search_miss _ _ _ _ _ _ _ E). cbn [snd searched_symbols].
      now rewrite lookup_insert_ne.
  - intros k v Hk. now apply search_keeps_entries.
  - intros _. apply search_caches.
Qed.

(** What may happen to the state after a moment: searches, and instances
    constructed with another table (the cache belongs to the class). *)
Inductive later : State -> State -> Prop :=
| later_now self : later self self
| later_search fetched now q self self' :
    later self self' ->
    later self (snd (search_symbols fetched now q self'))
| later_new_instance df ts self self' :
    later self self' ->
    later self (mkState df ts (searched_symbols self')).

Lemma later_keeps_cache self self' k v :
  later self self' ->
  searched_symbols self !! k = Some v ->
  searched_symbols self' !! k = Some v.
Proof.
  induction 1 as [self|fetched now q self self' _ IH|df ts self self' _ IH];
    intros Hk.
  - exact Hk.
  - apply search_keeps_entries. now apply IH.
  - simpl. now apply IH.
Qed.

(** Once a query has been answered the answer is final: after any further
    searches, refreshes and new instances, the same query returns the same
    list and does nothing else, not even the staleness test. *)
Theorem search_result_permanent fetched now q self self' fetched' now' :
  later (snd (search_symbols fetched now q self)) self' ->
  search_symbols fetched' now' q self' =
  (fst (search_symbols fetched now q self), self').
Proof.
  intros Hl. apply search_hit.
  eapply later_keeps_cache; [exact Hl|]. apply search_caches.
Qed.

(** *** The result of a search that misses the cache *)

Hypothesis sort_values_perm : forall l, sort_values l ≡ₚ l.
Hypothesis sort_values_sorted : forall l, Sorted Match_ge (sort_values l).

Lemma ranked_row_origin q df r' :
  r' ∈ rows (rank q df) ->
  exists r, r ∈ rows df /\ Symbol r' = Symbol r /\
            Issue_Name r' = Issue_Name r /\ Description r' = Description r.
Proof.
  intros Hr'.
  pose proof (rank_rows_perm ratio partial_ratio sort_values
                sort_values_perm sort_values_sorted q df) as Hperm.
  assert (He : erase_Match r' ∈ map erase_Match (rows df)).
  { rewrite <- Hperm. apply list_elem_of_fmap. eauto. }
  apply list_elem_of_fmap in He as (r & He & Hr).
  apply erase_Match_fields in He as (H1 & H2 & H3). eauto.
Qed.

Lemma project_head10_elem df s d :
  (s, d) ∈ project (head10 df) ->
  exists r', r' ∈ rows df /\ s = Symbol r' /\ d = Description r'.
Proof.
  unfold project, head10. cbn [rows]. intros H.
  apply list_elem_of_fmap in H as (r' & [= -> ->] & Hr').
  apply elem_of_take in Hr' as (i & Hr' & _).
  apply list_elem_of_lookup_2 in Hr'. eauto.
Qed.

(** The result lists ten rows of the table in use, or all of them when
    there are fewer (and at least one), each as its ticker and its
    description. *)
Theorem search_result_rows fetched now q self :
  searched_symbols self !! q = None ->
  rows (fst (refresh_if_stale fetched now self)) <> [] ->
  length (fst (search_symbols fetched now q self)) =
    Nat.min 10 (length (rows (fst (refresh_if_stale fetched now self)))) /\
  forall s d, (s, d) ∈ fst (search_symbols fetched now q self) ->
    exists r, r ∈ rows (fst (refresh_if_stale fetched now self)) /\
              s = Symbol r /\ d = Description r.
Proof.
  intros Hmiss _. rewrite (search_miss _ _ _ _ _ _ _ Hmiss). cbn [fst].
  set (df := fst (refresh_if_stale fetched now self)).
  pose proof (rank_rows_perm ratio partial_ratio sort_values
                sort_values_perm sort_values_sorted q df) as Hperm.
  split.
  - unfold project, head10. cbn [rows].
    rewrite length_map, length_take.
    apply Permutation_length in Hperm. rewrite !length_map in Hperm.
    now rewrite Hperm.
  - intros s d H. apply project_head10_elem in H as (r' & Hr' & -> & ->).
    apply ranked_row_origin in Hr' as (r & Hr & H1 & _ & H3). eauto.
Qed.

(** The rows returned are the best: they come in descending order of the
    score the table is left with, and no row left out scores more than a
    row returned. *)
Theorem search_result_best fetched now q self :
  searched_symbols self !! q = None ->
  exists top rest,
    rows (symbol_list (snd (search_symbols fetched now q self))) = top ++ rest /\
    fst (search_symbols fetched now q self) =
      map (fun x => (Symbol x, Description x)) top /\
    Sorted Match_ge top /\
    forall r r', r ∈ top -> r' ∈ rest -> (Match r' <= Match r)%Z.
Proof.
  intros Hmiss. rewrite (search_miss _ _ _ _ _ _ _ Hmiss).
  cbn [fst snd symbol_list].
  set (df := fst (refresh_if_stale fetched now self)).
  pose proof (rank_sorted ratio partial_ratio sort_values
                sort_values_perm sort_values_sorted q df) as HS.
  exists (take 10 (rows (rank q df))), (drop 10 (rows (rank q df))).
  rewrite take_drop. split; [reflexivity|]. split; [reflexivity|].
  apply Sorted_StronglySorted in HS; [|apply _].
  rewrite <- (take_drop 10 (rows (rank q df))) in HS.
  apply StronglySorted_app in HS as (Hcross & Htop & _).
  split; [now apply StronglySorted_Sorted|].
  intros r r' Hr Hr'. now apply (Hcross r r').
Qed.

(** With scores that never exceed 100, a table of one or two rows is
    always ranked by issue name: its ticker scores cannot sum to 300. *)
Theorem small_table_ranked_by_name q df :
  (forall a b, (ratio a b <= 100)%Z) ->
  1 <= length (rows df) < 3 ->
  rank q df = by_name ratio partial_ratio sort_values q df.
Proof.
  intros Hle [_ Hlen].
  rewrite (rank_cases ratio partial_ratio sort_values).
  destruct (by_ticker_spec ratio sort_values sort_values_perm
              sort_values_sorted q df) as (Hscore & _ & Hperm & _).
  apply Permutation_length in Hperm. rewrite !length_map in Hperm.
  assert (Hb : Forall (fun r => (Match r <= 100)%Z)
                 (take 5 (rows (by_ticker ratio sort_values q df)))).
  { apply Forall_take. eapply Forall_impl; [exact Hscore|].
    intros r ->. apply Hle. }
  apply sum_Match_bound in Hb. rewrite length_take in Hb.
  unfold head_sum.
  destruct (Z.ltb_spec
              (foldr Z.add 0%Z
                 (map Match (take 5 (rows (by_ticker ratio sort_values q df)))))
              300); [reflexivity|lia].
Qed.

End SearchMore.

(** ** [Symbol.get_symbol_list] *)

Section SymbolList.

Import Functions.

(** Number of occurrences of a character in a text. *)
Fixpoint count_char (c : ascii) (s : string) : nat :=
  match s with
  | EmptyString => 0
  | String x s' => (if Ascii.eqb x c then 1 else 0) + count_char c s'
  end.

Lemma str_split_cons sep s : exists h t, str_split sep s = h :: t.
Proof.
  destruct s as [|c s]; simpl; [eauto|].
  destruct (Ascii.eqb c sep); [eauto|].
  destruct (str_split sep s); eauto.
Qed.

Lemma str_split_length sep s :
  length (str_split sep s) = S (count_char sep s).
Proof.
  induction s as [|c s IH]; simpl; [reflexivity|].
  destruct (Ascii.eqb c sep); simpl; [now rewrite IH|].
  destruct (str_split_cons sep s) as (h & t & E). rewrite E in *.
  exact IH.
Qed.

Lemma removelast_length {A} (l : list A) : length (removelast l) = length l - 1.
Proof.
  induction l as [|x l IH]; [reflexivity|].
  destruct l as [|y l]; [reflexivity|].
  change (removelast (x :: y :: l)) with (x :: removelast (y :: l)).
  simpl length in *. lia.
Qed.

Lemma records_length raw :
  length (Functions.records raw) = count_char "010" raw.
Proof.
  unfold Functions.records.
  rewrite removelast_length, length_map, str_split_length. lia.
Qed.

Lemma short_last_only_intro r t :
  Forall (fun r' => length r' = length r) (removelast t) ->
  length (List.last t r) <= length r ->
  Functions.short_last_only (r :: t) = true.
Proof.
  intros H Hl. unfold Functions.short_last_only.
  apply andb_true_intro. split; [|now apply Nat.leb_le].
  apply forallb_forall. intros r' Hr'.
  apply Nat.eqb_eq. rewrite Forall_forall in H. apply H.
  now apply list_elem_of_In.
Qed.

Lemma positions_app l ls ls' :
  forall i, Functions.positions l (ls ++ ls') i =
            Functions.positions l ls i ++ Functions.positions l ls' (i + length ls).
Proof.
  induction ls as [|x ls IH]; intros i; simpl.
  - now rewrite Nat.add_0_r.
  - rewrite IH, Nat.add_succ_r. now destruct (String.eqb x l).
Qed.

Lemma cell_app_l (r : list string) d c :
  c < length r -> Functions.cell (r ++ [d]) c = Functions.cell r c.
Proof. intros H. unfold Functions.cell. now apply app_nth1. Qed.

Lemma cell_app_r (r : list string) d :
  Functions.cell (r ++ [d]) (length r) = d.
Proof.
  unfold Functions.cell. rewrite app_nth2 by lia.
  now rewrite Nat.sub_diag.
Qed.

Lemma cell_insert_eq (r : list string) k d :
  k < length r -> Functions.cell (<[k := d]> r) k = d.
Proof.
  intros H. unfold Functions.cell. rewrite nth_lookup.
  rewrite list_lookup_insert_eq by exact H. reflexivity.
Qed.

Lemma cell_insert_ne (r : list string) k d c :
  c <> k -> Functions.cell (<[k := d]> r) c = Functions.cell r c.
Proof.
  intros H. unfold Functions.cell. rewrite !nth_lookup.
  rewrite list_lookup_insert_ne by congruence. reflexivity.
Qed.

Lemma Forall_removelast {A} (P : A -> Prop) (l : list A) :
  Forall P l -> Forall P (removelast l).
Proof.
  induction 1 as [|x l Hx Hl IH]; [constructor|].
  destruct l as [|y l]; [constructor|].
  change (removelast (x :: y :: l)) with (x :: removelast (y :: l)).
  constructor; assumption.
Qed.

Lemma positions_bound l ls :
  forall i k, k ∈ Functions.positions l ls i ->
              i <= k < i + length ls /\ ls !! (k - i) = Some l.
Proof.
  induction ls as [|x ls IH]; intros i k Hk; simpl in Hk; [inversion Hk|].
  destruct (String.eqb_spec x l) as [->|Hne].
  - apply elem_of_cons in Hk as [->|Hk].
    + simpl. rewrite Nat.sub_diag. split; [lia|reflexivity].
    + apply IH in Hk as [Hb Hl]. simpl. split; [lia|].
      replace (k - i) with (S (k - S i)) by lia. exact Hl.
  - apply IH in Hk as [Hb Hl]. simpl. split; [lia|].
    replace (k - i) with (S (k - S i)) by lia. exact Hl.
Qed.

Lemma positions_nil l ls i :
  Functions.positions l ls i = [] <-> l ∉ ls.
Proof.
  revert i. induction ls as [|x ls IH]; intros i; simpl.
  - split; [intros _ H; inversion H|reflexivity].
  - destruct (String.eqb_spec x l) as [->|Hne].
    + split; [discriminate|]. intros H. exfalso. apply H. left.
    + rewrite IH. split.
      * intros H Hin. apply elem_of_cons in Hin as [->|Hin]; [now apply Hne|].
        contradiction.
      * intros H Hin. apply H. now right.
Qed.

(** The table and the time returned; the exception raised on a response
    of fewer than two lines. [recs] are the lines between the header and
    the last line. *)
Theorem get_symbol_list_shape raw now :
  (count_char "010" raw < 2 ->
   Functions.get_symbol_list raw now = Functions.Raises "IndexError") /\
  (forall header recs trailer i j,
      Functions.records raw = header :: recs ++ [trailer] ->
      Forall (fun r => length r = length header) recs ->
      length trailer <= length header ->
      Functions.positions "Symbol" header 0 = [i] ->
      Functions.positions "Issue_Name" header 0 = [j] ->
      length (Functions.positions "Description" header 0) <= 1 ->
      exists t k,
        Functions.get_symbol_list raw now = Functions.Returns (t, now) /\
        length (Functions.body t) + 2 = count_char "010" raw /\
        Functions.labels t =
          (if bool_decide ("Description"%string ∈ header) then header
           else header ++ ["Description"%string]) /\
        Functions.positions "Description" (Functions.labels t) 0 = [k] /\
        Forall2 (fun r' r =>
                   length r' = length (Functions.labels t) /\
                   Functions.cell r' k =
                     (Functions.cell r i +:+ ": " +:+ Functions.cell r j)%string /\
                   forall c, c < length header -> c <> k ->
                             Functions.cell r' c = Functions.cell r c)
                (Functions.body t) recs).
Proof.
  pose proof (records_length raw) as Hlen. split.
  - intros Hc. unfold Functions.get_symbol_list.
    destruct (Functions.records raw) as [|header [|r rest]];
      [reflexivity| |simpl in Hlen; lia].
    cbn [Functions.short_last_only removelast forallb List.last andb].
    now rewrite Nat.leb_refl.
  - intros header recs trailer i j E HF Ht Pi Pj Pd.
    rewrite E, length_cons, length_app in Hlen. simpl in Hlen.
    unfold Functions.get_symbol_list. rewrite E.
    rewrite short_last_only_intro;
      [|now rewrite removelast_last|now rewrite last_last].
    cbn [negb]. destruct (recs ++ [trailer]) as [|r rest] eqn:E'.
    { destruct recs; discriminate E'. }
    rewrite <- E', removelast_last, Pi, Pj.
    unfold Functions.assign_column. cbn [Functions.labels Functions.body].
    destruct (Functions.positions "Description" header 0) as [|k [|? ?]] eqn:Pk;
      [| |simpl in Pd; lia].
    + apply positions_nil in Pk as Hd.
      rewrite bool_decide_eq_false_2 by exact Hd.
      exists (Functions.mkTable (header ++ ["Description"%string])
                (map (fun r => r ++ [(Functions.cell r i +:+ ": " +:+
                                      Functions.cell r j)%string]) recs)),
             (length header).
      cbn [Functions.labels Functions.body].
      split; [reflexivity|]. split; [rewrite length_map; lia|].
      split; [reflexivity|]. split.
      { rewrite positions_app, Pk. simpl. reflexivity. }
      apply Forall2_fmap_l, Forall_Forall2_diag.
      eapply Forall_impl; [exact HF|]. intros r0 Hr0. cbn beta in Hr0 |- *.
      split; [rewrite !length_app, Hr0; reflexivity|].
      split; [rewrite <- Hr0; apply cell_app_r|].
      intros c Hc _. apply cell_app_l. lia.
    + destruct (positions_bound "Description" header 0 k) as [Hk Hlk];
        [rewrite Pk; left|].
      rewrite bool_decide_eq_true_2
        by (eapply list_elem_of_lookup_2; exact Hlk).
      exists (Functions.mkTable header
                (map (fun r => <[k := (Functions.cell r i +:+ ": " +:+
                                       Functions.cell r j)%string]> r) recs)), k.
      cbn [Functions.labels Functions.body].
      split; [reflexivity|]. split; [rewrite length_map; lia|].
      split; [reflexivity|]. split; [exact Pk|].
      apply Forall2_fmap_l, Forall_Forall2_diag.
      eapply Forall_impl; [exact HF|]. intros r0 Hr0. cbn beta in Hr0 |- *.
      split; [now rewrite length_insert|].
      split; [apply cell_insert_eq; lia|].
      intros c _ Hc. now apply cell_insert_ne.
Qed.

(** *** Reading back a file that was written out *)

Fixpoint contains (c : ascii) (s : string) : bool :=
  match s with
  | EmptyString => false
  | String x s' => Ascii.eqb x c || contains c s'
  end.

(** The cells of a row, with a bar between two cells. *)
Fixpoint join_cells (cells : list string) : string :=
  match cells with
  | [] => EmptyString
  | [c] => c
  | c :: cs => c +:+ String "|" (join_cells cs)
  end.

(** The text of a file: each row on a line of its own, ended by a newline. *)
Fixpoint render (table : list (list string)) : string :=
  match table with
  | [] => EmptyString
  | r :: t => join_cells r +:+ String "010" (render t)
  end.

Definition clean_cell (c : string) : Prop :=
  contains "|" c = false /\ contains "010" c = false.

(** A row of [w] cells, none of which holds a bar or a newline. *)
Definition clean_row (w : nat) (r : list string) : Prop :=
  length r = w /\ Forall clean_cell r.

Lemma str_split_free sep a : contains sep a = false -> str_split sep a = [a].
Proof.
  induction a as [|c a IH]; simpl; [reflexivity|].
  intros H. apply orb_false_elim in H as [Hc Ha].
  rewrite Hc, (IH Ha). reflexivity.
Qed.

Lemma str_split_app sep a b :
  contains sep a = false ->
  str_split sep (a +:+ String sep b) = a :: str_split sep b.
Proof.
  induction a as [|c a IH]; simpl.
  - intros _. now rewrite Ascii.eqb_refl.
  - intros H. apply orb_false_elim in H as [Hc Ha].
    rewrite Hc, (IH Ha). reflexivity.
Qed.

Lemma contains_app c a b :
  contains c (a +:+ b) = contains c a || contains c b.
Proof.
  induction a as [|x a IH]; simpl; [reflexivity|].
  now rewrite IH, orb_assoc.
Qed.

Lemma split_join_cells cells :
  cells <> [] -> Forall clean_cell cells ->
  str_split "|" (join_cells cells) = cells.
Proof.
  induction cells as [|c cells IH]; [congruence|]. intros _ HF.
  apply Forall_cons in HF as [[Hc _] HF].
  destruct cells as [|c' cells].
  - simpl. now apply str_split_free.
  - change (join_cells (c :: c' :: cells))
      with (c +:+ String "|" (join_cells (c' :: cells))).
    rewrite (str_split_app "|" c _ Hc), IH; [reflexivity|discriminate|exact HF].
Qed.

Lemma join_cells_no_newline cells :
  Forall clean_cell cells -> contains "010" (join_cells cells) = false.
Proof.
  induction cells as [|c cells IH]; [reflexivity|]. intros HF.
  apply Forall_cons in HF as [[_ Hc] HF].
  destruct cells as [|c' cells]; [exact Hc|].
  change (join_cells (c :: c' :: cells))
    with (c +:+ String "|" (join_cells (c' :: cells))).
  rewrite contains_app, Hc. simpl. now apply IH.
Qed.

Lemma split_render table :
  Forall (fun r => Forall clean_cell r) table ->
  str_split "010" (render table) = map join_cells table ++ [EmptyString].
Proof.
  induction 1 as [|r table Hr _ IH]; [reflexivity|].
  simpl render. rewrite (str_split_app "010" _ _ (join_cells_no_newline r Hr)).
  now rewrite IH.
Qed.

(** The rows read from the text of a table are the rows written. *)
Lemma records_render table :
  Forall (fun r => r <> [] /\ Forall clean_cell r) table ->
  records (render table) = table.
Proof.
  intros HF. unfold records. rewrite split_render.
  2:{ eapply Forall_impl; [exact HF|]. now intros r [_ H]. }
  rewrite map_app. simpl. rewrite removelast_last, map_map.
  induction HF as [|r table [Hne Hr] _ IH]; [reflexivity|].
  simpl. now rewrite (split_join_cells r Hne Hr), IH.
Qed.

Lemma short_last_only_same r t :
  Forall (fun r' => length r' = length r) t -> short_last_only (r :: t) = true.
Proof.
  intros H. apply short_last_only_intro; [now apply Forall_removelast|].
  destruct t as [|x t] using rev_ind; [reflexivity|].
  rewrite last_last. apply Forall_app in H as [_ H].
  apply Forall_inv in H. lia.
Qed.

(** A file of a header line, record lines and a trailer line, each ended by
    a newline, all with as many cells, is read back as the records, in
    order, under the labels of the header, each with its description; the
    header and the trailer are not among the rows. *)
Theorem get_symbol_list_round_trip header recs trailer i j now :
  header <> [] ->
  Forall (clean_row (length header)) (header :: recs ++ [trailer]) ->
  positions "Symbol" header 0 = [i] ->
  positions "Issue_Name" header 0 = [j] ->
  "Description"%string ∉ header ->
  get_symbol_list (render (header :: recs ++ [trailer])) now =
  Returns (mkTable (header ++ ["Description"%string])
                   (map (fun r => r ++ [cell r i +:+ ": " +:+ cell r j]) recs),
           now).
Proof.
  intros Hne HF Pi Pj Hd. unfold get_symbol_list.
  rewrite records_render.
  2:{ eapply Forall_impl; [exact HF|]. intros r [Hl Hc]. split; [|exact Hc].
      intros ->. simpl in Hl. destruct header; [congruence|discriminate]. }
  rewrite short_last_only_same.
  2:{ apply Forall_cons in HF as [_ HF]. eapply Forall_impl; [exact HF|].
      now intros r [Hl _]. }
  cbn [negb]. destruct (recs ++ [trailer]) as [|r rest] eqn:E.
  { destruct recs; discriminate E. }
  rewrite <- E, removelast_last, Pi, Pj.
  unfold assign_column. cbn [labels body].
  apply (positions_nil "Description" header 0) in Hd. now rewrite Hd.
Qed.

Lemma str_split_snoc sep raw tail :
  contains sep tail = false ->
  str_split sep (raw +:+ String sep tail) = str_split sep raw ++ [tail].
Proof.
  intros Ht. induction raw as [|c raw IH]; simpl.
  - now rewrite Ascii.eqb_refl, (str_split_free sep tail Ht).
  - rewrite IH. destruct (Ascii.eqb c sep); [reflexivity|].
    destruct (str_split_cons sep raw) as (h & t & ->). reflexivity.
Qed.

(** Whatever follows the last newline of the response is never read: a last
    line that is not ended by a newline is lost. *)
Theorem get_symbol_list_ignores_tail raw tail tail' now :
  contains "010" tail = false ->
  contains "010" tail' = false ->
  get_symbol_list (raw +:+ String "010" tail) now =
  get_symbol_list (raw +:+ String "010" tail') now.
Proof.
  intros Ht Ht'. unfold get_symbol_list, records.
  rewrite (str_split_snoc "010" raw tail Ht).
  rewrite (str_split_snoc "010" raw tail' Ht').
  rewrite !map_app. simpl. now rewrite !removelast_last.
Qed.

(** The header of the reference list. *)
Definition reference_header : list string :=
  ["Symbol"; "Issue_Name"; "Primary_Listing_Mkt"]%string.

Definition cells_of (x : string * string * string) : list string :=
  [x.1.1; x.1.2; x.2].

Definition row_of (x : string * string * string) : Row :=
  mkRow x.1.1 x.1.2 x.2 (x.1.1 +:+ ": " +:+ x.1.2) 0.

(** From a file with the header of the reference list, the search gets one
    row per record, in the order of the file, with the description
    ["<symbol>: <issue name>"]. *)
Theorem get_symbol_list_reference_file recs trailer now :
  Forall (clean_row 3) (map cells_of recs ++ [trailer]) ->
  exists t,
    get_symbol_list
      (render (reference_header :: map cells_of recs ++ [trailer])) now =
      Returns (t, now) /\
    frame_of_table t =
      Some (mkDF ["Symbol"; "Issue_Name"; "Primary_Listing_Mkt";
                  "Description"]%string
                 (map row_of recs)).
Proof.
  intros HF.
  exists (mkTable (reference_header ++ ["Description"%string])
                  (map (fun r => r ++ [cell r 0 +:+ ": " +:+ cell r 1])
                       (map cells_of recs))).
  split.
  - unfold get_symbol_list. rewrite records_render.
    2:{ constructor; [split; [discriminate|repeat constructor]|].
        eapply Forall_impl; [exact HF|]. intros r [Hl Hc]. split; [|exact Hc].
        intros ->. discriminate Hl. }
    rewrite short_last_only_same.
    2:{ eapply Forall_impl; [exact HF|]. now intros r [Hl _]. }
    cbn [negb]. destruct (map cells_of recs ++ [trailer]) as [|r rest] eqn:E.
    { destruct recs; discriminate E. }
    rewrite <- E, removelast_last. reflexivity.
  - unfold frame_of_table. cbn [labels body].
    rewrite bool_decide_eq_true_2 by reflexivity. do 2 f_equal.
    rewrite !map_map. apply map_ext. intros [[sy na] mk]. reflexivity.
Qed.

End SymbolList.

(** ** Descriptions through a search *)

(** Every row is described by its symbol and its issue name. *)
Definition well_described (df : DataFrame) : Prop :=
  Forall (fun r => Description r = Symbol r +:+ ": " +:+ Issue_Name r) (rows df).

Section Descriptions.

Import Functions.

Variables ratio partial_ratio : string -> string -> Z.
Variable sort_values : list Row -> list Row.
Hypothesis sort_values_perm : forall l, sort_values l ≡ₚ l.
Hypothesis sort_values_sorted : forall l, Sorted Match_ge (sort_values l).

Local Abbreviation search_symbols :=
  (Functions.search_symbols ratio partial_ratio sort_values).

(** Scoring and sorting in place do not spoil the descriptions: when the
    table in use is well described, so is the table the search leaves, and
    every pair returned is a symbol with ["<symbol>: <issue name>"] of one
    of its rows. *)
Theorem search_keeps_descriptions fetched now q self :
  searched_symbols self !! q = None ->
  well_described (fst (refresh_if_stale fetched now self)) ->
  well_described (symbol_list (snd (search_symbols fetched now q self))) /\
  forall s d, (s, d) ∈ fst (search_symbols fetched now q self) ->
    exists r, r ∈ rows (fst (refresh_if_stale fetched now self)) /\
              s = Symbol r /\ d = Symbol r +:+ ": " +:+ Issue_Name r.
Proof.
  intros Hmiss Hwd. rewrite (search_miss _ _ _ _ _ _ _ Hmiss).
  cbn [fst snd symbol_list].
  set (df := fst (refresh_if_stale fetched now self)) in *.
  unfold well_described in *. rewrite Forall_forall in Hwd. split.
  - apply Forall_forall. intros r' Hr'.
    apply (ranked_row_origin ratio partial_ratio sort_values
             sort_values_perm sort_values_sorted) in Hr'
      as (r & Hr & H1 & H2 & H3).
    rewrite H1, H2, H3. now apply Hwd.
  - intros s d H. apply project_head10_elem in H as (r' & Hr' & -> & ->).
    apply (ranked_row_origin ratio partial_ratio sort_values
             sort_values_perm sort_values_sorted) in Hr'
      as (r & Hr & H1 & H2 & H3).
    exists r. split; [exact Hr|]. split; [exact H1|].
    rewrite H3. now apply Hwd.
Qed.

End Descriptions.

(** ** The replies of [functions.py] *)


Section DictFacts.

Import Functions.
Context {V : Type}.
Implicit Types (d : list (string * V)) (k : string) (v : V).




End DictFacts.


Section RepliesFacts.

Import Functions.

Variable World : Type.

Section AnyMessage.

Variable message_for : string -> World -> option string * World.
Local Abbreviation reply := (reply_dict World message_for).


Lemma reply_dict_raised l :
  forall w, foldl (reply_dict_step World message_for) (None, w) l = (None, w).
Proof. induction l as [|k l IH]; intros w; simpl; auto. Qed.

Lemma reply_dict_app l1 l2 w :
  reply (l1 ++ l2) w =
  foldl (reply_dict_step World message_for) (reply l1 w) l2.
Proof. unfold reply_dict. now rewrite foldl_app. Qed.



(** A message that raises ends the call: nothing is returned, and no
    request is made for the symbols that follow. *)
Lemma reply_dict_raises l1 k l2 w :
  is_Some (fst (reply l1 w)) ->
  fst (message_for k (snd (reply l1 w))) = None ->
  reply (l1 ++ k :: l2) w = (None, snd (message_for k (snd (reply l1 w)))).
Proof.
  intros [d Hd] Hnone. rewrite reply_dict_app.
  destruct (reply l1 w) as [od w1]. simpl in Hd, Hnone |- *. subst od.
  destruct (message_for k w1) as [om w2]. simpl in Hnone |- *. subst om.
  apply reply_dict_raised.
Qed.

End AnyMessage.

Variable Json : Type.
Variable get : string -> World -> Response Json * World.
Variable clock : World -> Z.
Variable IEX_TOKEN : string.
Variables companyName latestPrice : Json -> string.
Variables change_gt_0 change_lt_0 : Json -> bool.
Variable change : Json -> string.
Variables website industry sector CEO description : Json -> string.
Variable news_items : Json -> list (string * string).
Variable strptime : Json -> option Z.
Variable strftime : Z -> string.

Local Abbreviation price_message :=
  (price_message World Json get IEX_TOKEN companyName latestPrice
     change_gt_0 change_lt_0 change).
Local Abbreviation dividend_message :=
  (dividend_message World Json get clock IEX_TOKEN strptime strftime).
Local Abbreviation news_message :=
  (news_message World Json get IEX_TOKEN news_items).
Local Abbreviation info_message :=
  (info_message World Json get IEX_TOKEN companyName website industry
     sector CEO description).
Local Abbreviation dividend_reply :=
  (dividend_reply World Json get clock IEX_TOKEN strptime strftime).


Definition dividend_url (symbol : string) : string :=
  "https://cloud.iexapis.com/stable/data-points/" +:+ symbol
  +:+ "/NEXTDIVIDENDDATE?token=" +:+ IEX_TOKEN.

(** When a date received with status 200 cannot be parsed,
    [dividend_reply] raises: the messages built so far are lost and the
    symbols that follow are not requested. *)
Theorem dividend_reply_raises l1 k l2 w response w' :
  is_Some (fst (dividend_reply l1 w)) ->
  get (dividend_url k) (snd (dividend_reply l1 w)) = (response, w') ->
  status_code Json response = 200%Z ->
  strptime (json Json response) = None ->
  dividend_reply (l1 ++ k :: l2) w = (None, w').
Proof.
  intros Hsome Hget Hstatus Hparse.
  assert (Hm : dividend_message k (snd (dividend_reply l1 w)) = (None, w')).
  { unfold Functions.dividend_message. fold (dividend_url k).
    rewrite Hget, Hstatus, Hparse. reflexivity. }
  unfold Functions.dividend_reply in *.
  rewrite (reply_dict_raises dividend_message l1 k l2 w Hsome);
    now rewrite Hm.
Qed.

(** The three wordings of a dividend date that was received and parsed,
    by the time [delta] from now to the midnight that starts the dividend
    day. Once that midnight has passed, so during the dividend day itself,
    the dividend "was"; it "is today" during the 24 hours before that
    midnight; before that the number of days is the number of whole days
    left. *)
Theorem dividend_message_wording symbol w response w' divDate :
  get (dividend_url symbol) w = (response, w') ->
  status_code Json response = 200%Z ->
  strptime (json Json response) = Some divDate ->
  ((divDate - clock w' < 0)%Z ->
   dividend_message symbol w =
   (Some (upper symbol +:+ " dividend was on " +:+ strftime divDate
            +:+ " and a new date hasn't been announced yet."), w')) /\
  ((0 <= divDate - clock w' < DAY)%Z ->
   dividend_message symbol w = (Some (upper symbol +:+ " is today."), w')) /\
  ((DAY <= divDate - clock w')%Z ->
   exists n,
     (1 <= n)%Z /\ (n * DAY <= divDate - clock w' < (n + 1) * DAY)%Z /\
     dividend_message symbol w =
     (Some (upper symbol +:+ " dividend is on " +:+ strftime divDate
              +:+ " which is in " +:+ str_of_int n +:+ " Days."), w')).
Proof.
  intros Hget Hstatus Hparse.
  unfold Functions.dividend_message. fold (dividend_url symbol).
  rewrite Hget, Hstatus, Hparse. cbn [Z.eqb Pos.eqb].
  set (delta := (divDate - clock w')%Z).
  assert (HDAY : (0 < DAY)%Z) by reflexivity.
  pose proof (Z.div_mod delta DAY ltac:(lia)) as Hdm.
  pose proof (Z.mod_pos_bound delta DAY HDAY) as Hmod.
  split; [|split].
  - intros Hneg.
    destruct (Z.ltb_spec (delta / DAY) 0) as [_|Hge]; [reflexivity|].
    exfalso. nia.
  - intros Hrange.
    assert (Hq : (delta / DAY = 0)%Z) by (apply Z.div_small; exact Hrange).
    rewrite Hq. reflexivity.
  - intros Hfar. exists (delta / DAY)%Z.
    assert (Hq : (1 <= delta / DAY)%Z).
    { apply Z.div_le_lower_bound; lia. }
    split; [exact Hq|]. split; [nia|].
    destruct (Z.ltb_spec (delta / DAY) 0) as [|_]; [lia|].
    destruct (Z.gtb_spec (delta / DAY) 0) as [_|]; [reflexivity|lia].
Qed.

End RepliesFacts.

(** ** Further concrete runs *)

Module MoreRuns.

Import Functions.
Local Open Scope string_scope.

Local Abbreviation find_symbols := (Router.find_symbols set_iter_ref).
Local Abbreviation search_symbols :=
  (Functions.search_symbols ratio_ref partial_ratio_ref sort_values_stable).

Definition message : string := "what about $$btc and $tsla today".

Lemma find_symbols_validated_run :
  (forall l, set_iter_ref l ≡ₚ remove_dups l) /\
  Stock "tsla" ∈ find_symbols ["TSLA"] ["btc"] message /\
  upper "tsla" ∈ ["TSLA"].
Proof.
  assert (H : Stock "tsla" ∈ find_symbols ["TSLA"] ["btc"] message) by left.
  split; [exact set_iter_ref_perm|]. split; [exact H|].
  exact (proj1 (find_symbols_validated set_iter_ref ["TSLA"] ["btc"]
                  set_iter_ref_perm message (Stock "tsla") H)).
Defined.

Lemma find_symbols_coin_iff_run :
  (forall l, set_iter_ref l ≡ₚ remove_dups l) /\
  Coin "btc" ∈ find_symbols ["TSLA"] ["btc"] message /\
  exists tok, lower tok = "btc" /\ mentions_coin message tok.
Proof.
  assert (H : Coin "btc" ∈ find_symbols ["TSLA"] ["btc"] message)
    by (right; left).
  split; [exact set_iter_ref_perm|]. split; [exact H|].
  exact (proj2 (proj1 (find_symbols_coin_iff set_iter_ref ["TSLA"] ["btc"]
                         set_iter_ref_perm message "btc") H)).
Defined.

Lemma mentions_stock_run : mentions_stock "buy $x, $abc or $$abc?" "abc".
Proof.
  exists 9. repeat apply conj; try reflexivity; try (simpl; lia).
  - intros _. exists " "%char. split; [reflexivity|discriminate].
  - repeat constructor.
  - right. intros c [= <-]. reflexivity.
  - intros c _ [= <-]. reflexivity.
Qed.

Lemma find_symbols_stock_bounds_run :
  (forall l, set_iter_ref l ≡ₚ remove_dups l) /\
  upper "abc" ∈ ["ABC"] /\
  mentions_stock "buy $x, $abc or $$abc?" "abc" /\
  Stock "abc" ∈ find_symbols ["ABC"] ["abc"] "buy $x, $abc or $$abc?".
Proof.
  assert (H : upper "abc" ∈ ["ABC"]) by left.
  split; [exact set_iter_ref_perm|]. split; [exact H|].
  split; [exact mentions_stock_run|].
  exact (proj2 (find_symbols_stock_bounds set_iter_ref ["ABC"] ["abc"]
                  set_iter_ref_perm "buy $x, $abc or $$abc?" "abc")
               H mentions_stock_run).
Defined.

Lemma functions_find_symbols_iff_run :
  (forall l, set_iter_ref l ≡ₚ remove_dups l) /\
  NoDup (Functions.find_symbols set_iter_ref "$a$b $a").
Proof.
  split; [exact set_iter_ref_perm|].
  exact (proj1 (functions_find_symbols_iff set_iter_ref set_iter_ref_perm
                  "$a$b $a")).
Defined.

Lemma no_dollar_in_hi : "$"%char ∉ list_ascii_of_string "hi".
Proof.
  intros H. repeat (apply elem_of_cons in H as [H|H]; [discriminate|]).
  inversion H.
Qed.

Lemma find_symbols_without_dollar_run :
  (forall l, set_iter_ref l ≡ₚ remove_dups l) /\
  ("$"%char ∉ list_ascii_of_string "hi") /\
  find_symbols ["TSLA"] ["btc"] "hi" = [].
Proof.
  split; [exact set_iter_ref_perm|]. split; [exact no_dollar_in_hi|].
  exact (proj1 (find_symbols_without_dollar set_iter_ref ["TSLA"] ["btc"]
                  set_iter_ref_perm "hi" no_dollar_in_hi)).
Defined.

Definition start : State := mkState Runs.small_table 0 ∅.

Definition searched : State :=
  snd (search_symbols (Runs.other_table, 0%Z) 0 "b" start).

Lemma search_result_permanent_run :
  later ratio_ref partial_ratio_ref sort_values_stable searched
        (mkState Runs.other_table 5 (searched_symbols searched)) /\
  search_symbols (Runs.small_table, 9%Z) 9 "b"
                 (mkState Runs.other_table 5 (searched_symbols searched)) =
  (fst (search_symbols (Runs.other_table, 0%Z) 0 "b" start),
   mkState Runs.other_table 5 (searched_symbols searched)).
Proof.
  assert (H : later ratio_ref partial_ratio_ref sort_values_stable searched
                    (mkState Runs.other_table 5 (searched_symbols searched)))
    by (apply later_new_instance, later_now).
  split; [exact H|].
  exact (search_result_permanent ratio_ref partial_ratio_ref sort_values_stable
           (Runs.other_table, 0%Z) 0%Z "b" start _ (Runs.small_table, 9%Z) 9%Z H).
Defined.

Lemma search_result_rows_run :
  (forall l, sort_values_stable l ≡ₚ l) /\
  (forall l, Sorted Match_ge (sort_values_stable l)) /\
  searched_symbols start !! "b" = None /\
  rows (fst (refresh_if_stale (Runs.other_table, 0%Z) 0 start)) <> [] /\
  length (fst (search_symbols (Runs.other_table, 0%Z) 0 "b" start)) = 2.
Proof.
  assert (Hrows : rows (fst (refresh_if_stale (Runs.other_table, 0%Z) 0 start))
                  <> []) by discriminate.
  split; [exact sort_values_stable_perm|].
  split; [exact sort_values_stable_sorted|]. split; [reflexivity|].
  split; [exact Hrows|].
  exact (proj1 (search_result_rows ratio_ref partial_ratio_ref
                  sort_values_stable sort_values_stable_perm
                  sort_values_stable_sorted (Runs.other_table, 0%Z) 0%Z "b"
                  start eq_refl Hrows)).
Defined.

Lemma search_result_best_run :
  (forall l, sort_values_stable l ≡ₚ l) /\
  (forall l, Sorted Match_ge (sort_values_stable l)) /\
  searched_symbols start !! "b" = None /\
  exists top rest,
    rows (symbol_list searched) = (top ++ rest)%list /\
    fst (search_symbols (Runs.other_table, 0%Z) 0 "b" start) =
      map (fun x => (Symbol x, Description x)) top /\
    Sorted Match_ge top /\
    forall r r', r ∈ top -> r' ∈ rest -> (Match r' <= Match r)%Z.
Proof.
  split; [exact sort_values_stable_perm|].
  split; [exact sort_values_stable_sorted|]. split; [reflexivity|].
  exact (search_result_best ratio_ref partial_ratio_ref
           sort_values_stable sort_values_stable_perm sort_values_stable_sorted
           (Runs.other_table, 0%Z) 0%Z "b" start eq_refl).
Defined.

Lemma small_table_ranked_by_name_run :
  (forall l, sort_values_stable l ≡ₚ l) /\
  (forall l, Sorted Match_ge (sort_values_stable l)) /\
  (forall a b, (ratio_ref a b <= 100)%Z) /\
  1 <= length (rows Runs.small_table) < 3 /\
  rank ratio_ref partial_ratio_ref sort_values_stable "b" Runs.small_table =
  by_name ratio_ref partial_ratio_ref sort_values_stable "b" Runs.small_table.
Proof.
  assert (H : 1 <= length (rows Runs.small_table) < 3) by (simpl; lia).
  split; [exact sort_values_stable_perm|].
  split; [exact sort_values_stable_sorted|]. split; [exact ratio_ref_le|].
  split; [exact H|].
  exact (small_table_ranked_by_name ratio_ref partial_ratio_ref
           sort_values_stable sort_values_stable_perm
           sort_values_stable_sorted "b" Runs.small_table ratio_ref_le H).
Defined.

Lemma small_table_described : well_described Runs.small_table.
Proof. repeat constructor. Qed.

Lemma search_keeps_descriptions_run :
  (forall l, sort_values_stable l ≡ₚ l) /\
  (forall l, Sorted Match_ge (sort_values_stable l)) /\
  searched_symbols start !! "b" = None /\
  well_described (fst (refresh_if_stale (Runs.other_table, 0%Z) 0 start)) /\
  well_described (symbol_list searched).
Proof.
  split; [exact sort_values_stable_perm|].
  split; [exact sort_values_stable_sorted|]. split; [reflexivity|].
  split; [exact small_table_described|].
  exact (proj1 (search_keeps_descriptions ratio_ref partial_ratio_ref
                  sort_values_stable sort_values_stable_perm
                  sort_values_stable_sorted (Runs.other_table, 0%Z) 0%Z "b"
                  start eq_refl small_table_described)).
Defined.

Definition two_column_header : list string := ["Symbol"; "Issue_Name"].
Definition two_records : list (list string) :=
  [["A"; "Agilent"]; ["AA"; "Alcoa"]].
Definition trailer_row : list string := ["20200101"; "2"].

Lemma clean_rows_run :
  Forall (clean_row (length two_column_header))
         (two_column_header :: (two_records ++ [trailer_row])%list).
Proof. repeat (constructor || split). Qed.

Lemma no_description_run : "Description" ∉ two_column_header.
Proof.
  intros H. repeat (apply elem_of_cons in H as [H|H]; [discriminate|]).
  inversion H.
Qed.

Lemma get_symbol_list_round_trip_run :
  two_column_header <> [] /\
  Forall (clean_row (length two_column_header))
         (two_column_header :: (two_records ++ [trailer_row])%list) /\
  positions "Symbol" two_column_header 0 = [0] /\
  positions "Issue_Name" two_column_header 0 = [1] /\
  ("Description" ∉ two_column_header) /\
  get_symbol_list
    (render (two_column_header :: (two_records ++ [trailer_row])%list)) 7 =
  Returns (mkTable ["Symbol"; "Issue_Name"; "Description"]
                   [["A"; "Agilent"; "A: Agilent"]; ["AA"; "Alcoa"; "AA: Alcoa"]],
           7%Z).
Proof.
  split; [discriminate|]. split; [exact clean_rows_run|].
  split; [reflexivity|]. split; [reflexivity|].
  split; [exact no_description_run|].
  exact (get_symbol_list_round_trip two_column_header two_records trailer_row
           0 1 7%Z ltac:(discriminate) clean_rows_run eq_refl eq_refl
           no_description_run).
Defined.

Lemma get_symbol_list_ignores_tail_run :
  contains "010" "AA|Alcoa" = false /\
  contains "010" "" = false /\
  get_symbol_list ("Symbol|Issue_Name" +:+ String "010" "AA|Alcoa") 7 =
  get_symbol_list ("Symbol|Issue_Name" +:+ String "010" "") 7.
Proof.
  split; [reflexivity|]. split; [reflexivity|].
  exact (get_symbol_list_ignores_tail "Symbol|Issue_Name" "AA|Alcoa" "" 7%Z
           eq_refl eq_refl).
Defined.

Definition three_records : list (string * string * string) :=
  [("A", "Agilent", "N"); ("AA", "Alcoa", "N")].

Lemma clean_reference_rows_run :
  Forall (clean_row 3) (map cells_of three_records ++ [["20200101"; "2"; ""]])%list.
Proof. repeat (constructor || split). Qed.

Lemma get_symbol_list_reference_file_run :
  Forall (clean_row 3)
         (map cells_of three_records ++ [["20200101"; "2"; ""]])%list /\
  exists t,
    get_symbol_list
      (render (reference_header ::
                 (map cells_of three_records ++ [["20200101"; "2"; ""]])%list)) 7 =
      Returns (t, 7%Z) /\
    frame_of_table t =
      Some (mkDF ["Symbol"; "Issue_Name"; "Primary_Listing_Mkt"; "Description"]
                 (map row_of three_records)).
Proof.
  split; [exact clean_reference_rows_run|].
  exact (get_symbol_list_reference_file three_records ["20200101"; "2"; ""]
           7%Z clean_reference_rows_run).
Defined.

(** A response whose last line holds one cell, a time stamp. *)
Definition stamp_row : list string := ["20200101020202"].

Definition stamped_text : string :=
  render (reference_header :: (map cells_of three_records ++ [stamp_row])%list).

Lemma get_symbol_list_shape_run :
  records stamped_text =
    reference_header :: (map cells_of three_records ++ [stamp_row])%list /\
  Forall (fun r => length r = length reference_header)
         (map cells_of three_records) /\
  length stamp_row <= length reference_header /\
  exists t k,
    get_symbol_list stamped_text 7 = Returns (t, 7%Z) /\
    length (body t) + 2 = count_char "010" stamped_text /\
    labels t = ["Symbol"; "Issue_Name"; "Primary_Listing_Mkt"; "Description"] /\
    positions "Description" (labels t) 0 = [k] /\
    Forall2 (fun r' r =>
               length r' = length (labels t) /\
               cell r' k = cell r 0 +:+ ": " +:+ cell r 1 /\
               forall c, c < length reference_header -> c <> k ->
                         cell r' c = cell r c)
            (body t) (map cells_of three_records).
Proof.
  assert (HF : Forall (fun r => length r = length reference_header)
                      (map cells_of three_records)) by (repeat constructor).
  assert (Ht : length stamp_row <= length reference_header) by (simpl; lia).
  split; [reflexivity|]. split; [exact HF|]. split; [exact Ht|].
  exact (proj2 (get_symbol_list_shape stamped_text 7%Z)
           reference_header (map cells_of three_records) stamp_row 0 1
           eq_refl HF Ht eq_refl eq_refl ltac:(simpl; lia)).
Defined.

(** A provider that answers every request with status 200 and the body
    given, counting the requests; a clock that shows the same time
    throughout. *)
Definition answer (body : string) : string -> nat -> Response string * nat :=
  fun _ w => (mkResponse string 200 body, S w).

Definition parse_none : string -> option Z := fun _ => None.
Definition parse_noon : string -> option Z := fun _ => Some 100%Z.
Definition pretty : Z -> string := fun _ => "Friday, May 5".

Lemma dividend_reply_raises_run :
  is_Some (fst (dividend_reply nat string (answer "soon") (fun _ => 0%Z) "t"
                  parse_none pretty [] 0)) /\
  answer "soon" (dividend_url "t" "x")
         (snd (dividend_reply nat string (answer "soon") (fun _ => 0%Z) "t"
                 parse_none pretty [] 0)) =
    (mkResponse string 200 "soon", 1) /\
  status_code string (mkResponse string 200 "soon") = 200%Z /\
  parse_none (json string (mkResponse string 200 "soon")) = None /\
  dividend_reply nat string (answer "soon") (fun _ => 0%Z) "t"
                 parse_none pretty ([] ++ "x" :: ["y"])%list 0 = (None, 1).
Proof.
  assert (H : is_Some (fst (dividend_reply nat string (answer "soon")
                              (fun _ => 0%Z) "t" parse_none pretty [] 0)))
    by (eexists; reflexivity).
  split; [exact H|]. split; [reflexivity|]. split; [reflexivity|].
  split; [reflexivity|].
  exact (dividend_reply_raises nat string (answer "soon") (fun _ => 0%Z) "t"
           parse_none pretty [] "x" ["y"] 0 (mkResponse string 200 "soon") 1
           H eq_refl eq_refl eq_refl).
Defined.

(** The dividend day began at time 100 and it is now 200: the dividend
    "was". *)
Lemma dividend_message_wording_run :
  answer "2020-05-08" (dividend_url "t" "x") 0 =
    (mkResponse string 200 "2020-05-08", 1) /\
  status_code string (mkResponse string 200 "2020-05-08") = 200%Z /\
  parse_noon (json string (mkResponse string 200 "2020-05-08")) = Some 100%Z /\
  (100 - 200 < 0)%Z /\
  dividend_message nat string (answer "2020-05-08") (fun _ => 200%Z) "t"
                   parse_noon pretty "x" 0 =
  (Some (upper "x" +:+ " dividend was on " +:+ pretty 100
           +:+ " and a new date hasn't been announced yet."), 1).
Proof.
  split; [reflexivity|]. split; [reflexivity|]. split; [reflexivity|].
  split; [reflexivity|].
  exact (proj1 (dividend_message_wording nat string (answer "2020-05-08")
                  (fun _ => 200%Z) "t" parse_noon pretty "x" 0
                  (mkResponse string 200 "2020-05-08") 1 100%Z
                  eq_refl eq_refl eq_refl) eq_refl).
Defined.

End MoreRuns.
